(** * attrs-strict: the recursive type validator

    A shallow embedding of [src/attrs_strict/_type_validation.py] and
    [src/attrs_strict/_commons.py], and the properties of the validator that
    the specification states.

    Python type hints are duck-typed objects; the embedding keeps the
    attributes the validator inspects ([__origin__], [__args__],
    [__supertype__], [__bound__], [__constraints__]) and nothing else. *)

From Stdlib Require Import List String ZArith Bool Arith Lia Permutation.
Import ListNotations.
Local Open Scope string_scope.
Local Open Scope list_scope.
Set Warnings "-register-all".

(* ================================================================== *)
(** ** Runtime classes *)

(** The runtime classes that occur in [SimilarTypes], in the tests and in
    the emptiness check.  [c_empty] is [inspect.Parameter.empty], the
    annotation of a parameter that has none. *)
Inductive cls : Set :=
| c_object | c_NoneType | c_bool | c_int | c_float | c_str
| c_list | c_set | c_tuple
| c_dict | c_OrderedDict | c_defaultdict
| c_Mapping | c_MutableMapping | c_Callable
| c_function | c_empty.

Definition cls_eqb (a b : cls) : bool :=
  match a, b with
  | c_object, c_object | c_NoneType, c_NoneType | c_bool, c_bool
  | c_int, c_int | c_float, c_float | c_str, c_str
  | c_list, c_list | c_set, c_set | c_tuple, c_tuple
  | c_dict, c_dict | c_OrderedDict, c_OrderedDict
  | c_defaultdict, c_defaultdict
  | c_Mapping, c_Mapping | c_MutableMapping, c_MutableMapping
  | c_Callable, c_Callable | c_function, c_function
  | c_empty, c_empty => true
  | _, _ => false
  end.

(** The classes [c] is a (nominal or registered) subclass of, itself first:
    [bool] is an [int], a [dict] is a [MutableMapping] and a [Mapping], a
    function is a [collections.abc.Callable]. *)
Definition bases (c : cls) : list cls :=
  match c with
  | c_object => [c_object]
  | c_bool => [c_bool; c_int; c_object]
  | c_dict => [c_dict; c_MutableMapping; c_Mapping; c_object]
  | c_OrderedDict =>
      [c_OrderedDict; c_dict; c_MutableMapping; c_Mapping; c_object]
  | c_defaultdict =>
      [c_defaultdict; c_dict; c_MutableMapping; c_Mapping; c_object]
  | c_MutableMapping => [c_MutableMapping; c_Mapping; c_object]
  | c_function => [c_function; c_Callable; c_object]
  | c => [c; c_object]
  end.

Definition issubclass (c d : cls) : bool := existsb (cls_eqb d) (bases c).

(** The unsubscripted generic aliases of [typing] named in [SimilarTypes]. *)
Inductive typing_alias : Set :=
| typing_Dict | typing_DefaultDict | typing_Mapping | typing_MutableMapping
| typing_List | typing_Set | typing_Tuple | typing_Callable.

Definition typing_alias_eqb (a b : typing_alias) : bool :=
  match a, b with
  | typing_Dict, typing_Dict | typing_DefaultDict, typing_DefaultDict
  | typing_Mapping, typing_Mapping
  | typing_MutableMapping, typing_MutableMapping
  | typing_List, typing_List | typing_Set, typing_Set
  | typing_Tuple, typing_Tuple | typing_Callable, typing_Callable => true
  | _, _ => false
  end.

(** The class an instance check against the alias is delegated to. *)
Definition runtime_class (a : typing_alias) : cls :=
  match a with
  | typing_Dict => c_dict
  | typing_DefaultDict => c_defaultdict
  | typing_Mapping => c_Mapping
  | typing_MutableMapping => c_MutableMapping
  | typing_List => c_list
  | typing_Set => c_set
  | typing_Tuple => c_tuple
  | typing_Callable => c_Callable
  end.

(* ================================================================== *)
(** ** Type hints *)

(** What [attribute.type] and the members of [__args__] can be.

    - [T_Any], [T_Union], [T_Ellipsis]: [typing.Any], the bare
      [typing.Union], and [...].
    - [T_class c]: a runtime class; it has none of the inspected attributes.
    - [T_alias a]: an unsubscripted [typing] alias; its [__origin__] and
      [__args__] are [None].
    - [T_str], [T_ForwardRef]: a string annotation and a
      [typing.ForwardRef].
    - [T_generic origin args]: a subscripted generic such as
      [typing.List[int]], [typing.Union[int, str]] or
      [typing.Tuple[int, ...]]; [__origin__] is a runtime class or a
      [typing] alias, depending on the interpreter.
    - [T_NewType name supertype]: the result of [typing.NewType].
    - [T_TypeVar name bound constraints]: a [typing.TypeVar]; [bound] is
      [None] when [__bound__ is None]. *)
Inductive ty : Type :=
| T_Any
| T_Union
| T_Ellipsis
| T_class (c : cls)
| T_alias (a : typing_alias)
| T_str (s : string)
| T_ForwardRef (s : string)
| T_generic (origin : ty) (args : list ty)
| T_NewType (name : string) (supertype : ty)
| T_TypeVar (name : string) (bound : option ty) (constraints : list ty).

(** Python's [==] on type hints.  Classes, aliases and special forms compare
    by identity; forward references by the name they hold; subscripted
    generics by origin and arguments, the arguments of a union as a set;
    [NewType] and [TypeVar] objects, which Python compares by identity, are
    identified with their contents. *)
Fixpoint ty_eqb (a b : ty) {struct a} : bool :=
  match a, b with
  | T_Any, T_Any | T_Union, T_Union | T_Ellipsis, T_Ellipsis => true
  | T_class c, T_class d => cls_eqb c d
  | T_alias x, T_alias y => typing_alias_eqb x y
  | T_str s, T_str s' => String.eqb s s'
  | T_ForwardRef s, T_ForwardRef s' => String.eqb s s'
  | T_generic o1 l1, T_generic o2 l2 =>
      ty_eqb o1 o2 &&
      match o1 with
      | T_Union =>
          forallb (fun x => existsb (fun y => ty_eqb x y) l2) l1 &&
          forallb (fun y => existsb (fun x => ty_eqb x y) l1) l2
      | _ =>
          (fix go (l1 l2 : list ty) {struct l1} : bool :=
             match l1, l2 with
             | [], [] => true
             | x :: l1', y :: l2' => ty_eqb x y && go l1' l2'
             | _, _ => false
             end) l1 l2
      end
  | T_NewType n1 s1, T_NewType n2 s2 => String.eqb n1 n2 && ty_eqb s1 s2
  | T_TypeVar n1 b1 cs1, T_TypeVar n2 b2 cs2 =>
      String.eqb n1 n2 &&
      match b1, b2 with
      | None, None => true
      | Some x, Some y => ty_eqb x y
      | _, _ => false
      end &&
      (fix go (l1 l2 : list ty) {struct l1} : bool :=
         match l1, l2 with
         | [], [] => true
         | x :: l1', y :: l2' => ty_eqb x y && go l1' l2'
         | _, _ => false
         end) cs1 cs2
  | _, _ => false
  end.

(** [==] where either side may be [None]. *)
Definition opt_ty_eqb (a b : option ty) : bool :=
  match a, b with
  | None, None => true
  | Some x, Some y => ty_eqb x y
  | _, _ => false
  end.

(** [x in s] for a set [s] of type hints. *)
Definition member (x : ty) (s : list ty) : bool := existsb (ty_eqb x) s.

Module SimilarTypes.
Definition Dict : list ty :=
  [ T_class c_dict; T_class c_OrderedDict; T_class c_defaultdict;
    T_class c_Mapping; T_class c_MutableMapping;
    T_alias typing_Dict; T_alias typing_DefaultDict;
    T_alias typing_Mapping; T_alias typing_MutableMapping ].
Definition List : list ty :=
  [ T_class c_set; T_class c_list; T_alias typing_List; T_alias typing_Set ].
Definition Tuple : list ty := [ T_class c_tuple; T_alias typing_Tuple ].
Definition Callable : list ty :=
  [ T_alias typing_Callable; T_class c_Callable ].
End SimilarTypes.

(** [_commons.is_newtype] and [_commons.is_typevar]: the attribute tests
    hold of exactly the [NewType] and [TypeVar] objects. *)
Definition is_newtype (type_ : ty) : bool :=
  match type_ with T_NewType _ _ => true | _ => false end.

Definition is_typevar (type_ : ty) : bool :=
  match type_ with T_TypeVar _ _ _ => true | _ => false end.

Definition _get_base_type (type_ : ty) : ty :=
  match type_ with
  | T_generic origin _ => origin
  | T_NewType _ supertype => supertype
  | T_TypeVar _ bound constraints =>
      match bound with
      | Some bound => bound
      | None =>
          if negb (Nat.eqb (List.length constraints) 0) then T_Union else T_Any
      end
  | _ => type_
  end.

(* ================================================================== *)
(** ** Values, attributes and exceptions *)

(** The values handed to the validator.  A dictionary is the list of its
    items in iteration order: its keys are pairwise distinct, so the
    [container[key]] of a key the iteration yields is the value of that
    item.  A function is given by the annotations [inspect.signature]
    reads off it. *)
Inductive value : Type :=
| VNone
| VBool (b : bool)
| VInt (n : Z)
| VStr (s : string)
| VList (xs : list value)
| VSet (xs : list value)
| VTuple (xs : list value)
| VDict (items : list (value * value))
| VFunction (params : list ty) (ret : ty).

Definition type_of (v : value) : cls :=
  match v with
  | VNone => c_NoneType
  | VBool _ => c_bool
  | VInt _ => c_int
  | VStr _ => c_str
  | VList _ => c_list
  | VSet _ => c_set
  | VTuple _ => c_tuple
  | VDict _ => c_dict
  | VFunction _ _ => c_function
  end.

(** Truth value, as [not field] tests it. *)
Definition truthy (v : value) : bool :=
  match v with
  | VNone => false
  | VBool b => b
  | VInt n => negb (Z.eqb n 0)
  | VStr s => negb (String.eqb s "")
  | VList xs | VSet xs | VTuple xs => negb (Nat.eqb (List.length xs) 0)
  | VDict items => negb (Nat.eqb (List.length items) 0)
  | VFunction _ _ => true
  end.

Record Attribute : Type := { name : string; type : option ty }.

(** Exceptions.  The first five are the classes of [_error.py], with the
    arguments their constructors are called with; [_StringAnnotationError]
    is declared in [_type_validation.py]; the others are built in. *)
Inductive exn : Type :=
| AttributeTypeError (v : value) (attribute : Attribute)
| EmptyError (field : value) (attribute : Attribute)
| TupleError (container : value) (declared : option ty)
             (tuple_types : list ty)
| UnionLikeError (v : value) (attribute_name : string) (union_like_type : ty)
| CallableError (attribute : Attribute) (signature : list ty * ty)
                (expected_type : ty) (callable_arg expected_arg : option ty)
| _StringAnnotationError
| TypeError
| AttributeError
| ValueError
| NameError.

(** The result of running a statement: it returns, raises an exception that
    carries the containers recorded on it so far, or the bound on the
    recursion depth was reached. *)
Inductive outcome : Type :=
| Return
| Raise (e : exn) (containers : list value)
| OutOfFuel.

(** The classes of [_error.py]. *)
Inductive error_class : Set :=
| K_AttributeTypeError | K_EmptyError | K_TupleError
| K_UnionLikeError | K_CallableError.

(** [isinstance(value, base_type)]; [None] is the [TypeError] Python raises
    when the second argument is not a class: a subscripted generic, a
    [TypeVar], a [NewType], a special form. *)
Definition isinstance (v : value) (base_type : ty) : option bool :=
  match base_type with
  | T_class c => Some (issubclass (type_of v) c)
  | T_alias a => Some (issubclass (type_of v) (runtime_class a))
  | _ => None
  end.

(** [type_.__args__] where a tuple is needed: absent on classes and on
    [NewType], [TypeVar] and special forms, [None] on a bare alias. *)
Definition get_args (type_ : ty) : exn + list ty :=
  match type_ with
  | T_generic _ args => inr args
  | T_alias _ => inl TypeError
  | _ => inl AttributeError
  end.

(** [getattr(type_, "__args__", None)]. *)
Definition getattr_args (type_ : ty) : option (list ty) :=
  match type_ with
  | T_generic _ args => Some args
  | _ => None
  end.

Definition get_constraints (type_ : ty) : exn + list ty :=
  match type_ with
  | T_TypeVar _ _ constraints => inr constraints
  | _ => inl AttributeError
  end.

(** [for element in container]. *)
Definition iter (container : value) : exn + list value :=
  match container with
  | VList xs | VSet xs | VTuple xs => inr xs
  | VDict items => inr (map fst items)
  | VStr s =>
      inr (map (fun c => VStr (String c EmptyString)) (list_ascii_of_string s))
  | _ => inl TypeError
  end.

(** [for key in container] paired with [container[key]]. *)
Definition iter_items (container : value) : exn + list (value * value) :=
  match container with
  | VDict items => inr items
  | _ => inl TypeError
  end.

(** [len(container)]. *)
Definition len (container : value) : exn + nat :=
  match container with
  | VList xs | VSet xs | VTuple xs => inr (List.length xs)
  | VDict items => inr (List.length items)
  | VStr s => inr (String.length s)
  | _ => inl TypeError
  end.

(* ================================================================== *)
(** ** The compatibility matcher *)

(** [itertools.zip_longest]: the shorter list is padded with [None]. *)
Fixpoint zip_longest {A B : Type} (xs : list A) (ys : list B)
  : list (option A * option B) :=
  match xs, ys with
  | [], [] => []
  | x :: xs', [] => (Some x, None) :: zip_longest xs' []
  | [], y :: ys' => (None, Some y) :: map (fun y => (None, Some y)) ys'
  | x :: xs', y :: ys' => (Some x, Some y) :: zip_longest xs' ys'
  end.

(** [actual] or [expected] after the first two statements of
    [_type_matching]: a [NewType] or [TypeVar] is replaced by its base
    type. *)
Definition unwrap (type_ : ty) : ty :=
  if is_newtype type_ || is_typevar type_ then _get_base_type type_
  else type_.

Definition similar_containers : list ty :=
  SimilarTypes.Dict ++ SimilarTypes.List ++ SimilarTypes.Tuple
  ++ SimilarTypes.Callable.

(** [_type_matching(actual, expected)] for an [expected] that is not
    [None].  [actual] is [None] when [zip_longest] padded the actual side.
    The two local loops are [any(...)] over the alternatives and [all(...)]
    over [zip_longest(actual.__args__, expected.__args__)]; when the
    expected side of a pair is the padding the call returns [False]
    (see [_type_matching] below). *)
Fixpoint _type_matching_ty (actual : option ty) (expected : ty)
  {struct expected} : exn + bool :=
  let actual_type := option_map unwrap actual in
  let expected_type := unwrap expected in
  if opt_ty_eqb (Some expected_type) actual_type || ty_eqb expected_type T_Any
  then inr true
  else
    let base_type := _get_base_type expected in
    if ty_eqb base_type T_Union then
      let any_ :=
        fix any_ (expected_types : list ty) : exn + bool :=
          match expected_types with
          | [] => inr false
          | expected_candidate :: rest =>
              match _type_matching_ty actual expected_candidate with
              | inr false => any_ rest
              | r => r
              end
          end in
      match expected with
      | T_TypeVar _ _ constraints => any_ constraints
      | T_generic _ args => any_ args
      | T_alias _ => inl TypeError
      | _ => inl AttributeError
      end
    else if member base_type similar_containers then
      let all_ :=
        fix all_ (actuals expecteds : list ty) {struct expecteds}
          : exn + bool :=
          match actuals, expecteds with
          | [], [] => inr true
          | _ :: _, [] => inr false
          | [], e :: expecteds' =>
              match _type_matching_ty None e with
              | inr true => all_ [] expecteds'
              | r => r
              end
          | a :: actuals', e :: expecteds' =>
              match _type_matching_ty (Some a) e with
              | inr true => all_ actuals' expecteds'
              | r => r
              end
          end in
      match actual with
      | Some (T_generic _ actual_args) =>
          match expected with
          | T_generic _ expected_args => all_ actual_args expected_args
          | T_alias _ => inl TypeError
          | _ => inl AttributeError
          end
      | Some (T_alias _) =>
          match expected with
          | T_generic _ _ | T_alias _ => inl TypeError
          | _ => inl AttributeError
          end
      | _ => inl AttributeError
      end
    else inr false.

(** [_type_matching(actual, expected)].  With [expected = None] no test of
    the function but [expected_type == actual_type] can hold. *)
Definition _type_matching (actual expected : option ty) : exn + bool :=
  match expected with
  | Some expected => _type_matching_ty actual expected
  | None => inr (opt_ty_eqb None (option_map unwrap actual))
  end.

(** [inspect.signature(callable_)]: the annotations of the parameters and
    the return annotation. *)
Definition signature (callable_ : value) : exn + (list ty * ty) :=
  match callable_ with
  | VFunction params ret => inr (params, ret)
  | _ => inl TypeError
  end.

(* ================================================================== *)
(** ** The recursive validator *)

(** The superclasses of the classes of [_error.py] are not part of the
    sources at hand: which of them are caught by [except BadTypeError] and
    by [except ValueError] is a parameter of the development. *)
Record Hierarchy : Type := {
  BadTypeError_subclass : error_class -> bool;
  ValueError_subclass : error_class -> bool
}.

Definition class_of (e : exn) : option error_class :=
  match e with
  | AttributeTypeError _ _ => Some K_AttributeTypeError
  | EmptyError _ _ => Some K_EmptyError
  | TupleError _ _ _ => Some K_TupleError
  | UnionLikeError _ _ _ => Some K_UnionLikeError
  | CallableError _ _ _ _ _ => Some K_CallableError
  | _ => None
  end.

(** Modelled from the spec: [BadTypeError.add_container] of [_error.py],
    which is not among the sources.  The containers a failure passed through
    are recorded on the error innermost first. *)
Definition add_container (containers : list value) (container : value)
  : list value :=
  containers ++ [container].

(** A [for] loop whose body returns or raises. *)
Fixpoint for_each {A : Type} (body : A -> outcome) (xs : list A) : outcome :=
  match xs with
  | [] => Return
  | x :: xs' =>
      match body x with
      | Return => for_each body xs'
      | r => r
      end
  end.

(** Two statements in sequence. *)
Definition seq (first : outcome) (second : unit -> outcome) : outcome :=
  match first with
  | Return => second tt
  | r => r
  end.

Section Validator.

Variable H : Hierarchy.

(** [isinstance(e, BadTypeError)]: [_StringAnnotationError] derives from
    [Exception] alone, and no built-in exception is a [BadTypeError]. *)
Definition is_BadTypeError (e : exn) : bool :=
  match class_of e with
  | Some k => BadTypeError_subclass H k
  | None => false
  end.

(** [isinstance(e, ValueError)]. *)
Definition is_ValueError (e : exn) : bool :=
  match e with
  | ValueError => true
  | _ =>
      match class_of e with
      | Some k => ValueError_subclass H k
      | None => false
      end
  end.

(** [try: body except BadTypeError as error:
          error.add_container(container); raise error]. *)
Definition recording (container : value) (body : outcome) : outcome :=
  match body with
  | Raise error containers =>
      if is_BadTypeError error
      then Raise error (add_container containers container)
      else body
  | _ => body
  end.

Section Handlers.

(** The recursive calls of the handlers to [_validate_elements]. *)
Variable rec : Attribute -> value -> option ty -> outcome.

Definition _handle_callable (attribute : Attribute) (callable_ : value)
  (expected_type : ty) : outcome :=
  match signature callable_ with
  | inl e => Raise e []
  | inr _signature =>
      let callable_args := fst _signature ++ [snd _signature] in
      match getattr_args expected_type with
      | None | Some [] => Return
      | Some expected_args =>
          for_each
            (fun pair : option ty * option ty =>
               let (callable_arg, expected_arg) := pair in
               match _type_matching callable_arg expected_arg with
               | inl e => Raise e []
               | inr true => Return
               | inr false =>
                   Raise (CallableError attribute _signature expected_type
                            callable_arg expected_arg) []
               end)
            (zip_longest callable_args expected_args)
      end
  end.

Definition _handle_set_or_list (attribute : Attribute) (container : value)
  (expected_type : ty) : outcome :=
  match get_args expected_type with
  | inl e => Raise e []
  | inr [element_type] =>
      match iter container with
      | inl e => Raise e []
      | inr elements =>
          for_each
            (fun element =>
               recording container
                 (rec attribute element (Some element_type)))
            elements
      end
  | inr _ => Raise ValueError []
  end.

Definition _handle_dict (attribute : Attribute) (container : value)
  (expected_type : ty) : outcome :=
  match get_args expected_type with
  | inl e => Raise e []
  | inr [key_type; value_type] =>
      match iter_items container with
      | inl e => Raise e []
      | inr items =>
          for_each
            (fun item : value * value =>
               let (key, val) := item in
               recording container
                 (seq (rec attribute key (Some key_type))
                    (fun _ => rec attribute val (Some value_type))))
            items
      end
  | inr _ => Raise ValueError []
  end.

(** The test of the first [if] of [_handle_tuple]. *)
Definition is_repeated (tuple_types : list ty) : bool :=
  match tuple_types with
  | [_; second] => ty_eqb second T_Ellipsis
  | _ => false
  end.

(** [tuple_types] after the first [if] of [_handle_tuple]. *)
Definition expand_tuple_types (tuple_types : list ty) (n : nat)
  : list ty :=
  match tuple_types with
  | [element_type; second] =>
      if ty_eqb second T_Ellipsis then repeat element_type n
      else tuple_types
  | _ => tuple_types
  end.

Definition _handle_tuple (attribute : Attribute) (container : value)
  (expected_type : ty) : outcome :=
  match get_args expected_type with
  | inl e => Raise e []
  | inr tuple_types =>
      match len container, iter container with
      | inr n, inr elements =>
          let tuple_types := expand_tuple_types tuple_types n in
          if negb (Nat.eqb n (List.length tuple_types)) then
            Raise (TupleError container (type attribute) tuple_types) []
          else
            for_each
              (fun pair : value * ty =>
                 let (element, expected_type) := pair in
                 recording container
                   (rec attribute element (Some expected_type)))
              (combine elements tuple_types)
      | inl e, _ | _, inl e => Raise e []
      end
  end.

(** The [for] loop of [_handle_union_like] and the [raise] after it. *)
Fixpoint try_alternatives (attribute : Attribute) (v : value)
  (union_like_type : ty) (expected_types : list ty) : outcome :=
  match expected_types with
  | [] => Raise (UnionLikeError v (name attribute) union_like_type) []
  | expected_type :: rest =>
      match rec attribute v (Some expected_type) with
      | Raise e containers =>
          if is_ValueError e
          then try_alternatives attribute v union_like_type rest
          else Raise e containers
      | r => r
      end
  end.

Definition is_None (v : value) : bool :=
  match v with VNone => true | _ => false end.

Definition is_NoneType (elem : ty) : bool :=
  match elem with T_class c_NoneType => true | _ => false end.

Definition _handle_union_like (attribute : Attribute) (v : value)
  (union_like_type : ty) (expected_types : list ty) : outcome :=
  let union_like_has_none_type := existsb is_NoneType expected_types in
  if is_None v && union_like_has_none_type then Return
  else try_alternatives attribute v union_like_type expected_types.

Definition is_str_or_ForwardRef (base_type : ty) : bool :=
  match base_type with
  | T_str _ | T_ForwardRef _ => true
  | _ => false
  end.

(** The body of [_validate_elements]. *)
Definition _validate_elements_body (attribute : Attribute) (v : value)
  (expected_type : option ty) : outcome :=
  match expected_type with
  | None => Return
  | Some expected_type =>
      let base_type := _get_base_type expected_type in
      if ty_eqb base_type T_Any then Return
      else if is_str_or_ForwardRef base_type then
        Raise _StringAnnotationError []
      else if ty_eqb base_type T_Union then
        if is_typevar expected_type then
          match get_constraints expected_type with
          | inl e => Raise e []
          | inr constraints =>
              _handle_union_like attribute v expected_type constraints
          end
        else
          match get_args expected_type with
          | inl e => Raise e []
          | inr args => _handle_union_like attribute v expected_type args
          end
      else
        match isinstance v base_type with
        | None => Raise TypeError []
        | Some false => Raise (AttributeTypeError v attribute) []
        | Some true =>
            if member base_type SimilarTypes.List then
              _handle_set_or_list attribute v expected_type
            else if member base_type SimilarTypes.Dict then
              _handle_dict attribute v expected_type
            else if member base_type SimilarTypes.Tuple then
              _handle_tuple attribute v expected_type
            else if member base_type SimilarTypes.Callable then
              _handle_callable attribute v expected_type
            else Return
        end
  end.

End Handlers.

(** [_validate_elements], with a bound on the depth of the recursion. *)
Fixpoint _validate_elements (fuel : nat) (attribute : Attribute)
  (v : value) (expected_type : option ty) : outcome :=
  match fuel with
  | O => OutOfFuel
  | S fuel' =>
      _validate_elements_body (_validate_elements fuel') attribute v
        expected_type
  end.

End Validator.

(** How deep the validator recurses into a type hint: through the arguments
    of a subscripted generic and the constraints of a [TypeVar]. *)
Fixpoint nesting (t : ty) : nat :=
  match t with
  | T_generic _ args =>
      S (fold_right (fun a n => Nat.max (nesting a) n) 0 args)
  | T_TypeVar _ _ constraints =>
      S (fold_right (fun a n => Nat.max (nesting a) n) 0 constraints)
  | _ => 0
  end.

Definition children (t : ty) : list ty :=
  match t with
  | T_generic _ args => args
  | T_TypeVar _ _ constraints => constraints
  | _ => []
  end.

(** A call of [_validate_elements] from outside, with recursion depth to
    spare for the whole of [expected_type]. *)
Definition validate (H : Hierarchy) (attribute : Attribute) (v : value)
  (expected_type : option ty) : outcome :=
  _validate_elements H
    (S (match expected_type with Some t => nesting t | None => 0 end))
    attribute v expected_type.

(** The alternative [t] of a union fails on [v] with an error that the scan
    of [_handle_union_like] catches. *)
Definition skipped (H : Hierarchy)
  (rec : Attribute -> value -> option ty -> outcome) (a : Attribute)
  (v : value) (t : ty) : Prop :=
  exists e cs, rec a v (Some t) = Raise e cs /\ is_ValueError H e = true.

(* ================================================================== *)
(** ** The field-level entry point *)

(** The attribute objects of [type(instance)]: the one handed to the
    validator and the other fields of the class.  [resolve_types] assigns
    to the [type] of these very objects. *)
Record Owner : Type := {
  owner_attribute : Attribute;
  owner_others : list Attribute
}.

Fixpoint lookup (hints : list (string * ty)) (key : string) : option ty :=
  match hints with
  | [] => None
  | (k, t) :: hints' => if String.eqb k key then Some t else lookup hints' key
  end.

(** The body of the loop of [resolve_types]. *)
Definition resolve_field (hints : list (string * ty)) (field : Attribute)
  : Attribute :=
  match lookup hints (name field) with
  | Some t => {| name := name field; type := Some t |}
  | None => field
  end.

(** [resolve_types(cls)]; [get_type_hints] is what
    [typing.get_type_hints(cls, ...)] returns or raises. *)
Definition resolve_types (get_type_hints : exn + list (string * ty))
  (cls : Owner) : exn + Owner :=
  match get_type_hints with
  | inl e => inl e
  | inr hints =>
      inr {| owner_attribute := resolve_field hints (owner_attribute cls);
             owner_others := map (resolve_field hints) (owner_others cls) |}
  end.

(** What [_validator] calls, in order. *)
Inductive event : Type :=
| Validated (expected_type : option ty)
| Resolved.

(** How many times [resolve_types] was called. *)
Definition resolutions (trace : list event) : nat :=
  List.length
    (filter (fun ev => match ev with Resolved => true | _ => false end) trace).

(** How many times [_validate_elements] was called from [_validator]. *)
Definition validations (trace : list event) : nat :=
  List.length
    (filter (fun ev => match ev with Validated _ => true | _ => false end)
       trace).

(** The closure [_validator] that [type_validator(empty_ok)] returns.  It
    yields the outcome, the attribute objects as it leaves them, and the
    calls it made. *)
Definition type_validator (H : Hierarchy)
  (get_type_hints : exn + list (string * ty)) (empty_ok : bool)
  (instance : Owner) (field : value) : outcome * Owner * list event :=
  let attribute := owner_attribute instance in
  if negb empty_ok && negb (truthy field) then
    (Raise (EmptyError field attribute) [], instance, [])
  else
    match validate H attribute field (type attribute) with
    | Raise _StringAnnotationError _ =>
        match resolve_types get_type_hints instance with
        | inl e =>
            (Raise e [], instance, [Validated (type attribute); Resolved])
        | inr instance' =>
            let attribute' := owner_attribute instance' in
            (validate H attribute' field (type attribute'), instance',
             [Validated (type attribute); Resolved;
              Validated (type attribute')])
        end
    | r => (r, instance, [Validated (type attribute)])
    end.

(** Modelled from the spec: the superclasses of the classes of [_error.py],
    which is not among the sources.  [BadTypeError] is the shared supertype
    of [AttributeTypeError], [UnionLikeError] and [TupleError]; a plain
    mismatch inside a union makes the scan move on, so
    [AttributeTypeError] is a [ValueError]; the other kinds propagate out
    of the scan. *)
Definition spec_hierarchy : Hierarchy := {|
  BadTypeError_subclass := fun k =>
    match k with
    | K_AttributeTypeError | K_UnionLikeError | K_TupleError => true
    | _ => false
    end;
  ValueError_subclass := fun k =>
    match k with
    | K_AttributeTypeError => true
    | _ => false
    end
|}.

(* ================================================================== *)
(** ** Vocabulary for the properties *)

(** The exceptions [_validate_elements] can raise: [EmptyError] is raised
    by [_validator] and [NameError] by [typing.get_type_hints] only. *)
Definition raised_by_validator (e : exn) : Prop :=
  match e with
  | EmptyError _ _ | NameError => False
  | _ => True
  end.

Section MatcherLoops.

(** [any(matching(c) for c in expected_types)], the first local loop of
    [_type_matching], as a function of its own. *)
Variable matching_candidate : ty -> exn + bool.

Fixpoint any_matching (expected_types : list ty) : exn + bool :=
  match expected_types with
  | [] => inr false
  | expected_candidate :: rest =>
      match matching_candidate expected_candidate with
      | inr false => any_matching rest
      | r => r
      end
  end.

(** [all(matching(a, e) for a, e in zip_longest(actuals, expecteds))], the
    second local loop of [_type_matching], as a function of its own. *)
Variable matching : option ty -> ty -> exn + bool.

Fixpoint all_matching (actuals expecteds : list ty) {struct expecteds}
  : exn + bool :=
  match actuals, expecteds with
  | [], [] => inr true
  | _ :: _, [] => inr false
  | [], e :: expecteds' =>
      match matching None e with
      | inr true => all_matching [] expecteds'
      | r => r
      end
  | a :: actuals', e :: expecteds' =>
      match matching (Some a) e with
      | inr true => all_matching actuals' expecteds'
      | r => r
      end
  end.

End MatcherLoops.

(** What the matcher raises, when it raises: the [TypeError] and
    [AttributeError] of reading [__args__] off a descriptor without
    arguments. *)
Definition matcher_raises (r : exn + bool) : Prop :=
  match r with
  | inl e => e = TypeError \/ e = AttributeError
  | inr _ => True
  end.

(** The body of the loop of [_handle_callable]. *)
Definition check_pair (attribute : Attribute) (_signature : list ty * ty)
  (expected_type : ty) (pair : option ty * option ty) : outcome :=
  let (callable_arg, expected_arg) := pair in
  match _type_matching callable_arg expected_arg with
  | inl e => Raise e []
  | inr true => Return
  | inr false =>
      Raise (CallableError attribute _signature expected_type
               callable_arg expected_arg) []
  end.

(* ================================================================== *)
(** ** Sample inputs *)

Module Samples.

Definition attr (t : ty) : Attribute := {| name := "zoo"; type := Some t |}.
Definition run (t : ty) (v : value) : outcome :=
  validate spec_hierarchy (attr t) v (Some t).

Definition List_ (t : ty) : ty := T_generic (T_class c_list) [t].
Definition Tuple_ (ts : list ty) : ty := T_generic (T_class c_tuple) ts.
Definition Dict_ (k v : ty) : ty := T_generic (T_class c_dict) [k; v].
Definition Union_ (ts : list ty) : ty := T_generic T_Union ts.
Definition Optional_ (t : ty) : ty := Union_ [t; T_class c_NoneType].
Definition int := T_class c_int.
Definition str := T_class c_str.

Definition bound_str := T_TypeVar "SomeTypeVar" (Some str) [].
Definition str_or_int := T_TypeVar "SomeTypeVar" None [str; int].

(** [Union["Foo", int]], the first alternative still unresolved. *)
Definition pending_or_int : ty := Union_ [T_ForwardRef "Foo"; int].

(** [TypeVar("T", "Foo", int)] and [TypeVar("T", int, "Foo")]. *)
Definition T_pending_int : ty :=
  T_TypeVar "T" None [T_ForwardRef "Foo"; int].
Definition T_int_pending : ty :=
  T_TypeVar "T" None [int; T_ForwardRef "Foo"].

(** [TypeVar("T", bound=typing.List[int])]. *)
Definition T_bound_list : ty := T_TypeVar "T" (Some (List_ int)) [].

(** A class with the field [zoo: "Foo"], its annotation a string. *)
Definition pending_owner : Owner :=
  {| owner_attribute := {| name := "zoo"; type := Some (T_str "Foo") |};
     owner_others := [] |}.

(** A class with the field [zoo: typing.List[int]]. *)
Definition list_owner : Owner :=
  {| owner_attribute := attr (List_ int); owner_others := [] |}.

(** A class with the field [zoo: T] for [T = TypeVar("T", "Foo", int)]. *)
Definition typevar_owner : Owner :=
  {| owner_attribute := attr T_pending_int; owner_others := [] |}.

End Samples.

(* ================================================================== *)
(** ** Loops *)

Lemma for_each_ext {A : Type} (f g : A -> outcome) (xs : list A) :
  (forall x, In x xs -> f x = g x) -> for_each f xs = for_each g xs.
Proof.
  induction xs as [|x xs IH]; intros Hfg; simpl; [reflexivity|].
  rewrite <- (Hfg x (or_introl eq_refl)).
  destruct (f x); try reflexivity.
  apply IH. intros y Hy. apply Hfg. now right.
Qed.

Lemma for_each_Return {A : Type} (f : A -> outcome) (xs : list A) :
  for_each f xs = Return <-> Forall (fun x => f x = Return) xs.
Proof.
  induction xs as [|x xs IH]; simpl.
  - split; auto.
  - split.
    + intros Hr. destruct (f x) eqn:Hx; try discriminate.
      constructor; [assumption | now apply IH].
    + intros Hall. inversion Hall as [|? ? Hx Hxs]; subst.
      rewrite Hx. now apply IH.
Qed.

(** A loop that stops does so at its first element whose body does not
    return. *)
Lemma for_each_stops {A : Type} (f : A -> outcome) (xs : list A) (r : outcome) :
  for_each f xs = r -> r <> Return ->
  exists pre x post,
    xs = pre ++ x :: post /\ Forall (fun y => f y = Return) pre /\ f x = r.
Proof.
  induction xs as [|x xs IH]; simpl; intros Hr Hne.
  - congruence.
  - destruct (f x) eqn:Hx.
    + destruct (IH Hr Hne) as (pre & y & post & -> & Hpre & Hy).
      exists (x :: pre), y, post. repeat split; auto.
    + exists [], x, xs. repeat split; auto. congruence.
    + exists [], x, xs. repeat split; auto. congruence.
Qed.

Lemma for_each_first_failure {A : Type} (f : A -> outcome)
  (pre : list A) (x : A) (post : list A) :
  Forall (fun y => f y = Return) pre -> f x <> Return ->
  for_each f (pre ++ x :: post) = f x.
Proof.
  induction pre as [|y pre IH]; simpl; intros Hpre Hx.
  - destruct (f x); congruence.
  - inversion Hpre as [|? ? Hy Hpre']; subst. rewrite Hy. now apply IH.
Qed.

Lemma expand_tuple_types_incl (tuple_types : list ty) (n : nat) (t : ty) :
  In t (expand_tuple_types tuple_types n) -> In t tuple_types.
Proof.
  unfold expand_tuple_types.
  destruct tuple_types as [|d [|second [|]]]; auto.
  destruct (ty_eqb second T_Ellipsis); auto.
  intros Hin. apply repeat_spec in Hin. subst. now left.
Qed.

Lemma nesting_children (t c : ty) : In c (children t) -> nesting c < nesting t.
Proof.
  assert (Hmax : forall l, In c l ->
            nesting c <= fold_right (fun a n => Nat.max (nesting a) n) 0 l).
  { induction l as [|x l IH]; simpl; intros Hin; [contradiction|].
    destruct Hin as [->|Hin]; [lia | specialize (IH Hin); lia]. }
  destruct t; simpl; try contradiction; intros Hin; apply Hmax in Hin; lia.
Qed.

Lemma get_args_children (t : ty) (args : list ty) :
  get_args t = inr args -> children t = args.
Proof. destruct t; simpl; congruence. Qed.

Lemma get_constraints_children (t : ty) (cs : list ty) :
  get_constraints t = inr cs -> children t = cs.
Proof. destruct t; simpl; congruence. Qed.

(* ================================================================== *)
(** ** The recursion depth is enough *)

Section Recursion.

Variable H : Hierarchy.

Lemma recording_ext (c : value) (r1 r2 : outcome) :
  r1 = r2 -> recording H c r1 = recording H c r2.
Proof. now intros ->. Qed.

Lemma try_alternatives_ext rec1 rec2 a v u (alts : list ty) :
  (forall t, In t alts -> rec1 a v (Some t) = rec2 a v (Some t)) ->
  try_alternatives H rec1 a v u alts = try_alternatives H rec2 a v u alts.
Proof.
  induction alts as [|t alts IH]; intros Hagree; simpl; [reflexivity|].
  rewrite <- (Hagree t (or_introl eq_refl)).
  destruct (rec1 a v (Some t)) as [|e cs|]; try reflexivity.
  destruct (is_ValueError H e); [|reflexivity].
  apply IH. intros t' Ht'. apply Hagree. now right.
Qed.

(** The body of [_validate_elements] calls itself on the children of the
    expected type only. *)
Lemma body_ext rec1 rec2 a v (t : ty) :
  (forall a' v' c, In c (children t) ->
     rec1 a' v' (Some c) = rec2 a' v' (Some c)) ->
  _validate_elements_body H rec1 a v (Some t)
  = _validate_elements_body H rec2 a v (Some t).
Proof.
  intros Hagree. unfold _validate_elements_body.
  destruct (ty_eqb (_get_base_type t) T_Any); [reflexivity|].
  destruct (is_str_or_ForwardRef (_get_base_type t)); [reflexivity|].
  destruct (ty_eqb (_get_base_type t) T_Union).
  { destruct (is_typevar t).
    - destruct (get_constraints t) as [e|cs] eqn:Hcs; [reflexivity|].
      apply get_constraints_children in Hcs.
      unfold _handle_union_like.
      destruct (is_None v && existsb is_NoneType cs); [reflexivity|].
      apply try_alternatives_ext. intros c Hc. apply Hagree. now rewrite Hcs.
    - destruct (get_args t) as [e|args] eqn:Hargs; [reflexivity|].
      apply get_args_children in Hargs.
      unfold _handle_union_like.
      destruct (is_None v && existsb is_NoneType args); [reflexivity|].
      apply try_alternatives_ext. intros c Hc. apply Hagree.
      now rewrite Hargs. }
  destruct (isinstance v (_get_base_type t)) as [[|]|]; try reflexivity.
  destruct (member (_get_base_type t) SimilarTypes.List).
  { unfold _handle_set_or_list.
    destruct (get_args t) as [e|args] eqn:Hargs; [reflexivity|].
    apply get_args_children in Hargs.
    destruct args as [|et [|]]; try reflexivity.
    destruct (iter v); [reflexivity|].
    apply for_each_ext. intros x _. apply recording_ext, Hagree.
    rewrite Hargs. now left. }
  destruct (member (_get_base_type t) SimilarTypes.Dict).
  { unfold _handle_dict.
    destruct (get_args t) as [e|args] eqn:Hargs; [reflexivity|].
    apply get_args_children in Hargs.
    destruct args as [|kt [|vt [|]]]; try reflexivity.
    destruct (iter_items v); [reflexivity|].
    apply for_each_ext. intros [k x] _. apply recording_ext.
    rewrite (Hagree a k kt), (Hagree a x vt); try reflexivity;
      rewrite Hargs; simpl; auto. }
  destruct (member (_get_base_type t) SimilarTypes.Tuple).
  { unfold _handle_tuple.
    destruct (get_args t) as [e|args] eqn:Hargs; [reflexivity|].
    apply get_args_children in Hargs.
    destruct (len v) as [e|n]; [reflexivity|].
    destruct (iter v) as [e|elements]; [reflexivity|].
    destruct (negb (Nat.eqb n (List.length (expand_tuple_types args n))));
      [reflexivity|].
    apply for_each_ext. intros [x et] Hin. apply recording_ext, Hagree.
    rewrite Hargs. apply in_combine_r in Hin.
    eapply expand_tuple_types_incl; eassumption. }
  reflexivity.
Qed.

Lemma for_each_total {A : Type} (f : A -> outcome) (xs : list A) :
  (forall x, In x xs -> f x <> OutOfFuel) -> for_each f xs <> OutOfFuel.
Proof.
  induction xs as [|x xs IH]; simpl; intros Hf; [discriminate|].
  pose proof (Hf x (or_introl eq_refl)) as Hx.
  destruct (f x); try congruence.
  apply IH. intros y Hy. apply Hf. now right.
Qed.

Lemma recording_total (c : value) (r : outcome) :
  r <> OutOfFuel -> recording H c r <> OutOfFuel.
Proof.
  destruct r as [|e cs|]; simpl; try congruence.
  destruct (is_BadTypeError H e); discriminate.
Qed.

Lemma try_alternatives_total rec a v u (alts : list ty) :
  (forall t, In t alts -> rec a v (Some t) <> OutOfFuel) ->
  try_alternatives H rec a v u alts <> OutOfFuel.
Proof.
  induction alts as [|t alts IH]; intros Hrec; simpl; [discriminate|].
  pose proof (Hrec t (or_introl eq_refl)) as Ht.
  destruct (rec a v (Some t)) as [|e cs|]; try congruence.
  destruct (is_ValueError H e); [|discriminate].
  apply IH. intros t' Ht'. apply Hrec. now right.
Qed.

Lemma _handle_callable_total a v (t : ty) :
  _handle_callable a v t <> OutOfFuel.
Proof.
  unfold _handle_callable.
  destruct (signature v) as [e|sig]; [discriminate|].
  destruct (getattr_args t) as [[|d ds]|]; try discriminate.
  apply for_each_total. intros [ca ea] _.
  destruct (_type_matching ca ea) as [e|[|]]; discriminate.
Qed.

(** The body of [_validate_elements] finishes when its recursive calls
    do. *)
Lemma body_total rec a v (t : ty) :
  (forall a' v' c, In c (children t) -> rec a' v' (Some c) <> OutOfFuel) ->
  _validate_elements_body H rec a v (Some t) <> OutOfFuel.
Proof.
  intros Hrec. unfold _validate_elements_body.
  destruct (ty_eqb (_get_base_type t) T_Any); [discriminate|].
  destruct (is_str_or_ForwardRef (_get_base_type t)); [discriminate|].
  destruct (ty_eqb (_get_base_type t) T_Union).
  { destruct (is_typevar t).
    - destruct (get_constraints t) as [e|cs] eqn:Hcs; [discriminate|].
      apply get_constraints_children in Hcs.
      unfold _handle_union_like.
      destruct (is_None v && existsb is_NoneType cs); [discriminate|].
      apply try_alternatives_total. intros c Hc. apply Hrec.
      now rewrite Hcs.
    - destruct (get_args t) as [e|args] eqn:Hargs; [discriminate|].
      apply get_args_children in Hargs.
      unfold _handle_union_like.
      destruct (is_None v && existsb is_NoneType args); [discriminate|].
      apply try_alternatives_total. intros c Hc. apply Hrec.
      now rewrite Hargs. }
  destruct (isinstance v (_get_base_type t)) as [[|]|]; try discriminate.
  destruct (member (_get_base_type t) SimilarTypes.List).
  { unfold _handle_set_or_list.
    destruct (get_args t) as [e|args] eqn:Hargs; [discriminate|].
    apply get_args_children in Hargs.
    destruct args as [|et [|]]; try discriminate.
    destruct (iter v); [discriminate|].
    apply for_each_total. intros x _. apply recording_total, Hrec.
    rewrite Hargs. now left. }
  destruct (member (_get_base_type t) SimilarTypes.Dict).
  { unfold _handle_dict.
    destruct (get_args t) as [e|args] eqn:Hargs; [discriminate|].
    apply get_args_children in Hargs.
    destruct args as [|kt [|vt [|]]]; try discriminate.
    destruct (iter_items v); [discriminate|].
    apply for_each_total. intros [k x] _. apply recording_total.
    assert (Hk : rec a k (Some kt) <> OutOfFuel)
      by (apply Hrec; rewrite Hargs; simpl; auto).
    assert (Hx : rec a x (Some vt) <> OutOfFuel)
      by (apply Hrec; rewrite Hargs; simpl; auto).
    unfold seq. destruct (rec a k (Some kt)); congruence. }
  destruct (member (_get_base_type t) SimilarTypes.Tuple).
  { unfold _handle_tuple.
    destruct (get_args t) as [e|args] eqn:Hargs; [discriminate|].
    apply get_args_children in Hargs.
    destruct (len v) as [e|n]; [discriminate|].
    destruct (iter v) as [e|elements]; [discriminate|].
    destruct (negb (Nat.eqb n (List.length (expand_tuple_types args n))));
      [discriminate|].
    apply for_each_total. intros [x et] Hin. apply recording_total, Hrec.
    rewrite Hargs. apply in_combine_r in Hin.
    eapply expand_tuple_types_incl; eassumption. }
  destruct (member (_get_base_type t) SimilarTypes.Callable);
    [apply _handle_callable_total | discriminate].
Qed.

(** With more recursion depth than the type hint is nested, the validator
    finishes. *)
Lemma _validate_elements_total (fuel : nat) :
  forall a v (t : ty), nesting t < fuel ->
    _validate_elements H fuel a v (Some t) <> OutOfFuel.
Proof.
  induction fuel as [|fuel IH]; intros a v t Hlt; [lia|].
  simpl. apply body_total. intros a' v' c Hc.
  apply IH. apply nesting_children in Hc. lia.
Qed.

(** ... and its outcome no longer depends on the depth allowed. *)
Lemma _validate_elements_stable (fuel1 : nat) :
  forall fuel2 a v (t : ty), nesting t < fuel1 -> nesting t < fuel2 ->
    _validate_elements H fuel1 a v (Some t)
    = _validate_elements H fuel2 a v (Some t).
Proof.
  induction fuel1 as [|fuel1 IH]; intros fuel2 a v t H1 H2; [lia|].
  destruct fuel2 as [|fuel2]; [lia|].
  simpl. apply body_ext. intros a' v' c Hc.
  apply nesting_children in Hc. apply IH; lia.
Qed.

Lemma validate_total a v (expected_type : option ty) :
  validate H a v expected_type <> OutOfFuel.
Proof.
  destruct expected_type as [t|]; [|discriminate].
  apply _validate_elements_total. lia.
Qed.

Lemma validate_fuel (fuel : nat) a v (t : ty) :
  nesting t < fuel ->
  _validate_elements H fuel a v (Some t) = validate H a v (Some t).
Proof. intros Hlt. apply _validate_elements_stable; [assumption | lia]. Qed.

(** One step of [validate]: the body, with [validate] for the recursive
    calls. *)
Lemma validate_unfold a v (t : ty) :
  validate H a v (Some t)
  = _validate_elements_body H (validate H) a v (Some t).
Proof.
  unfold validate at 1. simpl. apply body_ext. intros a' v' c Hc.
  apply validate_fuel. apply nesting_children in Hc. lia.
Qed.

End Recursion.

(* ================================================================== *)
(** ** The validator on the cases of the test suite *)

Module Tests.
Import Samples.

Example typevar_bound_success : run bound_str (VStr "foo") = Return.
Proof. reflexivity. Qed.

Example typevar_bound_failure :
  run bound_str (VInt 42)
  = Raise (AttributeTypeError (VInt 42) (attr bound_str)) [].
Proof. reflexivity. Qed.

Example typevar_bound_in_list :
  run (List_ bound_str) (VList [VStr "foo"; VStr "bar"]) = Return.
Proof. reflexivity. Qed.

Example typevar_bound_in_optional :
  run (Optional_ bound_str) VNone = Return.
Proof. reflexivity. Qed.

Example typevar_constraints_success :
  run str_or_int (VStr "foo") = Return /\ run str_or_int (VInt 42) = Return.
Proof. split; reflexivity. Qed.

Example typevar_constraints_failure :
  run str_or_int (VTuple [])
  = Raise (UnionLikeError (VTuple []) "zoo" str_or_int) [].
Proof. reflexivity. Qed.

Example typevar_constraints_in_tuple :
  run (Tuple_ [str_or_int]) (VTuple [VInt 5]) = Return.
Proof. reflexivity. Qed.

Example typevar_any_in_list :
  run (List_ (T_TypeVar "SomeTypeVar" None [])) (VList [VStr "foo"])
  = Return.
Proof. reflexivity. Qed.

Example list_of_str_failure :
  run (List_ str) (VList [VStr "a"; VInt 3])
  = Raise (AttributeTypeError (VInt 3) (attr (List_ str)))
      [VList [VStr "a"; VInt 3]].
Proof. reflexivity. Qed.

Example bool_is_an_int : run int (VBool true) = Return.
Proof. reflexivity. Qed.

Example union_failure :
  run (Union_ [str; int]) (VTuple [])
  = Raise (UnionLikeError (VTuple []) "zoo" (Union_ [str; int])) [].
Proof. reflexivity. Qed.

Example dict_of_lists :
  run (Dict_ str (List_ int)) (VDict [(VStr "a", VList [VInt 1; VInt 2])])
  = Return.
Proof. reflexivity. Qed.

(** With [TupleError] not a [ValueError], as the specification has it, an
    arity failure in the first alternative of a union ends the scan. *)
Example tuple_error_leaves_the_union :
  run (Union_ [Tuple_ [int; int]; Tuple_ [int]]) (VTuple [VInt 1])
  = Raise (TupleError (VTuple [VInt 1])
             (Some (Union_ [Tuple_ [int; int]; Tuple_ [int]])) [int; int]) [].
Proof. reflexivity. Qed.

(** A reference that [resolve_types] leaves unresolved reaches the caller
    after the one retry. *)
Example unresolved_after_retry :
  type_validator spec_hierarchy (inr [("zoo", T_ForwardRef "Foo")]) true
    pending_owner (VInt 3)
  = (Raise _StringAnnotationError [],
     {| owner_attribute :=
          {| name := "zoo"; type := Some (T_ForwardRef "Foo") |};
        owner_others := [] |},
     [Validated (Some (T_str "Foo")); Resolved;
      Validated (Some (T_ForwardRef "Foo"))]).
Proof. reflexivity. Qed.

(** A function [def f(x: int) -> str] against [Callable[[int], str]] and
    against [Callable[[str], str]]. *)
Example callable_success :
  run (T_generic (T_class c_Callable) [int; str]) (VFunction [int] str)
  = Return.
Proof. reflexivity. Qed.

Example callable_failure :
  run (T_generic (T_class c_Callable) [str; str]) (VFunction [int] str)
  = Raise (CallableError (attr (T_generic (T_class c_Callable) [str; str]))
             ([int], str) (T_generic (T_class c_Callable) [str; str])
             (Some int) (Some str)) [].
Proof. reflexivity. Qed.

(** [typing.get_type_hints] does not look inside a type variable: the
    unresolved constraint is met again on the retry. *)
Example pending_constraint_at_field_level :
  fst (fst (type_validator spec_hierarchy (inr [("zoo", T_pending_int)]) true
              typevar_owner (VInt 3)))
  = Raise _StringAnnotationError [].
Proof. reflexivity. Qed.

End Tests.

(* ================================================================== *)
(** ** Dispatch *)

Section Dispatch.

Variable H : Hierarchy.
Variable rec : Attribute -> value -> option ty -> outcome.

(** A base type that [isinstance] accepts is a class or an alias: it is
    none of [Any], [Union], a string or a forward reference. *)
Lemma isinstance_base v (o : ty) (b : bool) :
  isinstance v o = Some b ->
  ty_eqb o T_Any = false /\ is_str_or_ForwardRef o = false
  /\ ty_eqb o T_Union = false.
Proof. destruct o; simpl; intros Hi; try discriminate; auto. Qed.

Lemma body_guarded a v (t : ty) (b : bool) :
  isinstance v (_get_base_type t) = Some b ->
  _validate_elements_body H rec a v (Some t)
  = if b then
      if member (_get_base_type t) SimilarTypes.List then
        _handle_set_or_list H rec a v t
      else if member (_get_base_type t) SimilarTypes.Dict then
        _handle_dict H rec a v t
      else if member (_get_base_type t) SimilarTypes.Tuple then
        _handle_tuple H rec a v t
      else if member (_get_base_type t) SimilarTypes.Callable then
        _handle_callable a v t
      else Return
    else Raise (AttributeTypeError v a) [].
Proof.
  intros Hi. destruct (isinstance_base _ _ _ Hi) as (HA & HS & HU).
  unfold _validate_elements_body. rewrite HA, HS, HU, Hi.
  destruct b; reflexivity.
Qed.

Lemma body_tuple a v (o : ty) (args : list ty) :
  member o SimilarTypes.Tuple = true -> isinstance v o = Some true ->
  _validate_elements_body H rec a v (Some (T_generic o args))
  = _handle_tuple H rec a v (T_generic o args).
Proof.
  intros Hm Hi. rewrite (body_guarded _ _ _ true) by exact Hi. simpl.
  destruct o as [| | |c|al| | | | |]; try discriminate;
    [destruct c | destruct al]; try discriminate; reflexivity.
Qed.

Lemma body_sequence a v (o : ty) (args : list ty) :
  member o SimilarTypes.List = true -> isinstance v o = Some true ->
  _validate_elements_body H rec a v (Some (T_generic o args))
  = _handle_set_or_list H rec a v (T_generic o args).
Proof.
  intros Hm Hi. rewrite (body_guarded _ _ _ true) by exact Hi.
  cbn [_get_base_type]. now rewrite Hm.
Qed.

Lemma body_mapping a v (o : ty) (args : list ty) :
  member o SimilarTypes.Dict = true -> isinstance v o = Some true ->
  _validate_elements_body H rec a v (Some (T_generic o args))
  = _handle_dict H rec a v (T_generic o args).
Proof.
  intros Hm Hi. rewrite (body_guarded _ _ _ true) by exact Hi. simpl.
  destruct o as [| | |c|al| | | | |]; try discriminate;
    [destruct c | destruct al]; try discriminate; reflexivity.
Qed.

(** The values that pass the instance check of a tuple, sequence or
    mapping base type. *)
Lemma tuple_instance v (o : ty) :
  member o SimilarTypes.Tuple = true -> isinstance v o = Some true ->
  exists xs, v = VTuple xs.
Proof.
  intros Hm Hi.
  destruct o as [| | |c|al| | | | |]; try discriminate;
    [destruct c | destruct al]; try discriminate;
    destruct v; try discriminate; eauto.
Qed.

Lemma sequence_instance v (o : ty) :
  member o SimilarTypes.List = true -> isinstance v o = Some true ->
  exists xs, v = VList xs \/ v = VSet xs.
Proof.
  intros Hm Hi.
  destruct o as [| | |c|al| | | | |]; try discriminate;
    [destruct c | destruct al]; try discriminate;
    destruct v; try discriminate; eauto.
Qed.

Lemma mapping_instance v (o : ty) :
  member o SimilarTypes.Dict = true -> isinstance v o = Some true ->
  exists items, v = VDict items.
Proof.
  intros Hm Hi.
  destruct o as [| | |c|al| | | | |]; try discriminate;
    [destruct c | destruct al]; try discriminate;
    destruct v; try discriminate; eauto.
Qed.

Lemma expand_fixed (tuple_types : list ty) (n : nat) :
  is_repeated tuple_types = false ->
  expand_tuple_types tuple_types n = tuple_types.
Proof.
  unfold is_repeated, expand_tuple_types.
  destruct tuple_types as [|d [|second [|]]]; auto.
  now intros ->.
Qed.

(** The loop of [_handle_tuple] over a repeated descriptor. *)
Lemma _handle_tuple_repeated a (es : list value) (o d : ty) :
  _handle_tuple H rec a (VTuple es) (T_generic o [d; T_Ellipsis])
  = for_each
      (fun pair : value * ty =>
         recording H (VTuple es) (rec a (fst pair) (Some (snd pair))))
      (combine es (repeat d (List.length es))).
Proof.
  unfold _handle_tuple. simpl.
  rewrite repeat_length, Nat.eqb_refl. simpl.
  apply for_each_ext. now intros [x t] _.
Qed.

Lemma for_each_combine_repeat (f : value -> ty -> outcome) (d : ty)
  (es : list value) :
  for_each (fun pair : value * ty => f (fst pair) (snd pair))
    (combine es (repeat d (List.length es)))
  = for_each (fun x => f x d) es.
Proof.
  induction es as [|x es IH]; simpl; [reflexivity|].
  destruct (f x d); auto.
Qed.

Lemma recording_Return (c : value) (r : outcome) :
  recording H c r = Return <-> r = Return.
Proof.
  destruct r as [|e cs|]; simpl; try tauto.
  destruct (is_BadTypeError H e); split; discriminate.
Qed.

End Dispatch.

(* ================================================================== *)
(** ** Tuples *)

Lemma tuple_is_instance (es : list value) (o : ty) :
  member o SimilarTypes.Tuple = true -> isinstance (VTuple es) o = Some true.
Proof.
  intros Hm.
  destruct o as [| | |c|al| | | | |]; try discriminate;
    [destruct c | destruct al]; try discriminate; reflexivity.
Qed.

(** C7.  A tuple value of length [n] against a fixed-arity tuple descriptor
    with [m <> n] positional descriptors fails with [TupleError], whatever
    the elements are; the error is raised by the dispatch step itself,
    whatever the recursive calls would do, so before any of them is made. *)
Theorem fixed_tuple_arity_mismatch (H : Hierarchy) (a : Attribute)
  (es : list value) (o : ty) (ds : list ty) :
  member o SimilarTypes.Tuple = true ->
  is_repeated ds = false ->
  List.length es <> List.length ds ->
  (forall rec,
      _validate_elements_body H rec a (VTuple es) (Some (T_generic o ds))
      = Raise (TupleError (VTuple es) (type a) ds) [])
  /\ validate H a (VTuple es) (Some (T_generic o ds))
     = Raise (TupleError (VTuple es) (type a) ds) [].
Proof.
  intros Hm Hfixed Hlen.
  pose proof (tuple_is_instance es o Hm) as Hi.
  assert (Hbody : forall rec,
             _validate_elements_body H rec a (VTuple es)
               (Some (T_generic o ds))
             = Raise (TupleError (VTuple es) (type a) ds) []).
  { intros rec. rewrite body_tuple by assumption.
    unfold _handle_tuple. simpl. rewrite expand_fixed by assumption.
    destruct (Nat.eqb (List.length es) (List.length ds)) eqn:Heq.
    - apply Nat.eqb_eq in Heq. contradiction.
    - reflexivity. }
  split; [exact Hbody|]. rewrite validate_unfold. apply Hbody.
Qed.

Lemma fixed_tuple_arity_mismatch_witness :
  validate spec_hierarchy (Samples.attr (Samples.Tuple_ [Samples.int]))
    (VTuple [VInt 1; VInt 2]) (Some (Samples.Tuple_ [Samples.int]))
  = Raise (TupleError (VTuple [VInt 1; VInt 2])
             (Some (Samples.Tuple_ [Samples.int])) [Samples.int]) [].
Proof.
  apply (fixed_tuple_arity_mismatch spec_hierarchy
           (Samples.attr (Samples.Tuple_ [Samples.int]))
           [VInt 1; VInt 2] (T_class c_tuple) [Samples.int]).
  - reflexivity.
  - reflexivity.
  - simpl. lia.
Defined.

(** C8.  A tuple value against a repeated tuple descriptor validates exactly
    when every element validates against the repeated descriptor; the
    descriptor is expanded to one copy per element, and whatever the step
    raises is what the validation of its first failing element raised:
    there is no arity failure of its own. *)
Theorem repeated_tuple (H : Hierarchy) (a : Attribute) (es : list value)
  (o d : ty) :
  member o SimilarTypes.Tuple = true ->
  (validate H a (VTuple es) (Some (T_generic o [d; T_Ellipsis])) = Return
   <-> Forall (fun e => validate H a e (Some d) = Return) es)
  /\ expand_tuple_types [d; T_Ellipsis] (List.length es)
     = repeat d (List.length es)
  /\ List.length (expand_tuple_types [d; T_Ellipsis] (List.length es))
     = List.length es
  /\ (forall r,
        validate H a (VTuple es) (Some (T_generic o [d; T_Ellipsis])) = r ->
        r <> Return ->
        exists pre x post,
          es = pre ++ x :: post
          /\ Forall (fun y => validate H a y (Some d) = Return) pre
          /\ r = recording H (VTuple es) (validate H a x (Some d))).
Proof.
  intros Hm.
  pose proof (tuple_is_instance es o Hm) as Hi.
  assert (Hloop :
            validate H a (VTuple es) (Some (T_generic o [d; T_Ellipsis]))
            = for_each
                (fun x => recording H (VTuple es) (validate H a x (Some d)))
                es).
  { rewrite validate_unfold, body_tuple, _handle_tuple_repeated by assumption.
    apply (for_each_combine_repeat
             (fun x t => recording H (VTuple es) (validate H a x (Some t)))). }
  split; [|split; [|split]].
  - rewrite Hloop, for_each_Return.
    split; intros Hall; (eapply Forall_impl; [|exact Hall]);
      intros x; apply recording_Return.
  - reflexivity.
  - simpl. apply repeat_length.
  - intros r Hr Hne. rewrite Hloop in Hr.
    destruct (for_each_stops _ _ _ Hr Hne) as (pre & x & post & -> & Hpre & Hx).
    exists pre, x, post. repeat split; [|now symmetry].
    eapply Forall_impl; [|exact Hpre]. intros y. apply recording_Return.
Qed.

Lemma repeated_tuple_witness :
  validate spec_hierarchy
    (Samples.attr (Samples.Tuple_ [Samples.int; T_Ellipsis]))
    (VTuple [VInt 1; VInt 2; VInt 3])
    (Some (Samples.Tuple_ [Samples.int; T_Ellipsis])) = Return.
Proof.
  apply (repeated_tuple spec_hierarchy
           (Samples.attr (Samples.Tuple_ [Samples.int; T_Ellipsis]))
           [VInt 1; VInt 2; VInt 3] (T_class c_tuple) Samples.int).
  - reflexivity.
  - repeat constructor.
Defined.

(* ================================================================== *)
(** ** Container context *)

Section ContainerContext.

Variable H : Hierarchy.
Variable rec : Attribute -> value -> option ty -> outcome.
Variables (a : Attribute) (container : value) (e : exn) (cs : list value).
Hypothesis He : is_BadTypeError H e = true.

Lemma recording_BadTypeError :
  recording H container (Raise e cs) = Raise e (add_container cs container).
Proof. simpl. now rewrite He. Qed.

Lemma sequence_records (t element_type : ty) pre x post :
  get_args t = inr [element_type] ->
  iter container = inr (pre ++ x :: post) ->
  Forall (fun y => rec a y (Some element_type) = Return) pre ->
  rec a x (Some element_type) = Raise e cs ->
  _handle_set_or_list H rec a container t
  = Raise e (add_container cs container).
Proof.
  intros Hargs Hiter Hpre Hx. unfold _handle_set_or_list.
  rewrite Hargs, Hiter, for_each_first_failure.
  - rewrite Hx. apply recording_BadTypeError.
  - eapply Forall_impl; [|exact Hpre]. intros y Hy. now rewrite Hy.
  - rewrite Hx, recording_BadTypeError. discriminate.
Qed.

Lemma mapping_records_key (t key_type value_type : ty) pre k val post :
  get_args t = inr [key_type; value_type] ->
  iter_items container = inr (pre ++ (k, val) :: post) ->
  Forall (fun item => rec a (fst item) (Some key_type) = Return
                      /\ rec a (snd item) (Some value_type) = Return) pre ->
  rec a k (Some key_type) = Raise e cs ->
  _handle_dict H rec a container t = Raise e (add_container cs container).
Proof.
  intros Hargs Hiter Hpre Hk. unfold _handle_dict.
  rewrite Hargs, Hiter, for_each_first_failure.
  - rewrite Hk. apply recording_BadTypeError.
  - eapply Forall_impl; [|exact Hpre].
    intros [k' v'] [Hk' Hv']. simpl in *. now rewrite Hk', Hv'.
  - rewrite Hk. simpl seq. rewrite recording_BadTypeError. discriminate.
Qed.

Lemma mapping_records_value (t key_type value_type : ty) pre k val post :
  get_args t = inr [key_type; value_type] ->
  iter_items container = inr (pre ++ (k, val) :: post) ->
  Forall (fun item => rec a (fst item) (Some key_type) = Return
                      /\ rec a (snd item) (Some value_type) = Return) pre ->
  rec a k (Some key_type) = Return ->
  rec a val (Some value_type) = Raise e cs ->
  _handle_dict H rec a container t = Raise e (add_container cs container).
Proof.
  intros Hargs Hiter Hpre Hk Hval. unfold _handle_dict.
  rewrite Hargs, Hiter, for_each_first_failure.
  - rewrite Hk. simpl seq. rewrite Hval. apply recording_BadTypeError.
  - eapply Forall_impl; [|exact Hpre].
    intros [k' v'] [Hk' Hv']. simpl in *. now rewrite Hk', Hv'.
  - rewrite Hk. simpl seq. rewrite Hval, recording_BadTypeError.
    discriminate.
Qed.

Lemma tuple_records (t : ty) (tuple_types : list ty) (n : nat) elements
  pre x (expected_type : ty) post :
  get_args t = inr tuple_types ->
  len container = inr n ->
  iter container = inr elements ->
  n = List.length (expand_tuple_types tuple_types n) ->
  combine elements (expand_tuple_types tuple_types n)
  = pre ++ (x, expected_type) :: post ->
  Forall (fun pair => rec a (fst pair) (Some (snd pair)) = Return) pre ->
  rec a x (Some expected_type) = Raise e cs ->
  _handle_tuple H rec a container t = Raise e (add_container cs container).
Proof.
  intros Hargs Hlen Hiter Harity Hzip Hpre Hx. unfold _handle_tuple.
  rewrite Hargs, Hlen, Hiter, <- Harity, Nat.eqb_refl. simpl negb. cbv iota.
  rewrite Hzip, for_each_first_failure.
  - rewrite Hx. apply recording_BadTypeError.
  - eapply Forall_impl; [|exact Hpre].
    intros [y ty'] Hy. simpl in *. now rewrite Hy.
  - rewrite Hx, recording_BadTypeError. discriminate.
Qed.

End ContainerContext.

(** A failure two containers deep: the value of a mapping item is a
    sequence with a failing element. *)
Lemma mapping_of_sequences_records (H : Hierarchy) (a : Attribute)
  (e : exn) (cs : list value) (od ol key_type element_type : ty)
  (ipre ipost : list (value * value)) (k inner : value)
  (pre post : list value) (x : value) :
  is_BadTypeError H e = true ->
  member od SimilarTypes.Dict = true ->
  isinstance (VDict (ipre ++ (k, inner) :: ipost)) od = Some true ->
  member ol SimilarTypes.List = true ->
  isinstance inner ol = Some true ->
  iter inner = inr (pre ++ x :: post) ->
  Forall (fun item =>
            validate H a (fst item) (Some key_type) = Return
            /\ validate H a (snd item) (Some (T_generic ol [element_type]))
               = Return) ipre ->
  validate H a k (Some key_type) = Return ->
  Forall (fun y => validate H a y (Some element_type) = Return) pre ->
  validate H a x (Some element_type) = Raise e cs ->
  validate H a (VDict (ipre ++ (k, inner) :: ipost))
    (Some (T_generic od [key_type; T_generic ol [element_type]]))
  = Raise e (cs ++ [inner; VDict (ipre ++ (k, inner) :: ipost)]).
Proof.
  intros He Hod Hid Hol Hil Hiter Hipre Hk Hpre Hx.
  assert (Hinner : validate H a inner (Some (T_generic ol [element_type]))
                   = Raise e (add_container cs inner)).
  { rewrite validate_unfold, body_sequence by assumption.
    now apply (sequence_records H (validate H) a inner e cs He
                 (T_generic ol [element_type]) element_type pre x post). }
  rewrite validate_unfold, body_mapping by assumption.
  rewrite (mapping_records_value H (validate H) a _ e (add_container cs inner)
             He _ key_type (T_generic ol [element_type]) ipre k inner ipost);
    try reflexivity; try assumption.
  unfold add_container. now rewrite <- app_assoc.
Qed.

(** C1.  In the sequence, mapping and tuple dispatch steps, when the
    recursive call on a member raises a [BadTypeError], the step raises that
    same error with the enclosing container added to the containers recorded
    on it: no other error is put in its place.  A failure on an element of a
    sequence that is the value of a mapping item therefore arrives as the
    one error, carrying the sequence and then the mapping. *)
Theorem container_context (H : Hierarchy)
  (rec : Attribute -> value -> option ty -> outcome) (a : Attribute)
  (e : exn) (cs : list value) :
  is_BadTypeError H e = true ->
  (forall container t element_type pre x post,
      get_args t = inr [element_type] ->
      iter container = inr (pre ++ x :: post) ->
      Forall (fun y => rec a y (Some element_type) = Return) pre ->
      rec a x (Some element_type) = Raise e cs ->
      _handle_set_or_list H rec a container t = Raise e (cs ++ [container]))
  /\ (forall container t key_type value_type pre k val post,
        get_args t = inr [key_type; value_type] ->
        iter_items container = inr (pre ++ (k, val) :: post) ->
        Forall (fun item => rec a (fst item) (Some key_type) = Return
                            /\ rec a (snd item) (Some value_type) = Return)
          pre ->
        (rec a k (Some key_type) = Raise e cs
         \/ rec a k (Some key_type) = Return
            /\ rec a val (Some value_type) = Raise e cs) ->
        _handle_dict H rec a container t = Raise e (cs ++ [container]))
  /\ (forall container t tuple_types n elements pre x expected_type post,
        get_args t = inr tuple_types ->
        len container = inr n ->
        iter container = inr elements ->
        n = List.length (expand_tuple_types tuple_types n) ->
        combine elements (expand_tuple_types tuple_types n)
        = pre ++ (x, expected_type) :: post ->
        Forall (fun pair => rec a (fst pair) (Some (snd pair)) = Return)
          pre ->
        rec a x (Some expected_type) = Raise e cs ->
        _handle_tuple H rec a container t = Raise e (cs ++ [container]))
  /\ (forall od ol key_type element_type ipre ipost k inner pre post x,
        member od SimilarTypes.Dict = true ->
        isinstance (VDict (ipre ++ (k, inner) :: ipost)) od = Some true ->
        member ol SimilarTypes.List = true ->
        isinstance inner ol = Some true ->
        iter inner = inr (pre ++ x :: post) ->
        Forall (fun item =>
                  validate H a (fst item) (Some key_type) = Return
                  /\ validate H a (snd item)
                       (Some (T_generic ol [element_type])) = Return) ipre ->
        validate H a k (Some key_type) = Return ->
        Forall (fun y => validate H a y (Some element_type) = Return) pre ->
        validate H a x (Some element_type) = Raise e cs ->
        validate H a (VDict (ipre ++ (k, inner) :: ipost))
          (Some (T_generic od [key_type; T_generic ol [element_type]]))
        = Raise e (cs ++ [inner; VDict (ipre ++ (k, inner) :: ipost)])).
Proof.
  intros He. split; [|split; [|split]].
  - intros. eapply sequence_records; eassumption.
  - intros container t kt vt pre k val post Hargs Hiter Hpre [Hk|[Hk Hval]].
    + eapply mapping_records_key; eassumption.
    + eapply mapping_records_value; eassumption.
  - intros. eapply tuple_records; eassumption.
  - intros. eapply mapping_of_sequences_records; eassumption.
Qed.

Lemma container_context_witness :
  validate spec_hierarchy
    (Samples.attr (Samples.Dict_ Samples.str (Samples.List_ Samples.int)))
    (VDict [(VStr "a", VList [VInt 1; VStr "x"])])
    (Some (Samples.Dict_ Samples.str (Samples.List_ Samples.int)))
  = Raise (AttributeTypeError (VStr "x")
             (Samples.attr
                (Samples.Dict_ Samples.str (Samples.List_ Samples.int))))
      [VList [VInt 1; VStr "x"];
       VDict [(VStr "a", VList [VInt 1; VStr "x"])]].
Proof.
  pose proof (container_context spec_hierarchy (validate spec_hierarchy)
                (Samples.attr
                   (Samples.Dict_ Samples.str (Samples.List_ Samples.int)))
                (AttributeTypeError (VStr "x")
                   (Samples.attr
                      (Samples.Dict_ Samples.str (Samples.List_ Samples.int))))
                [] eq_refl) as (_ & _ & _ & Hdeep).
  apply (Hdeep (T_class c_dict) (T_class c_list) Samples.str Samples.int
           [] [] (VStr "a") (VList [VInt 1; VStr "x"])
           [VInt 1] [] (VStr "x")); try reflexivity.
  - constructor.
  - repeat constructor.
Defined.

(* ================================================================== *)
(** ** Unions and constraints *)

Section Alternatives.

Variable H : Hierarchy.
Variable rec : Attribute -> value -> option ty -> outcome.
Variables (a : Attribute) (v : value) (u : ty).

Lemma try_alternatives_skip (pre rest : list ty) :
  Forall (skipped H rec a v) pre ->
  try_alternatives H rec a v u (pre ++ rest)
  = try_alternatives H rec a v u rest.
Proof.
  induction pre as [|t pre IH]; intros Hpre; simpl; [reflexivity|].
  inversion Hpre as [|? ? (e & cs & Ht & He) Hpre']; subst.
  rewrite Ht, He. now apply IH.
Qed.

Lemma try_alternatives_propagates (pre post : list ty) (t : ty) e cs :
  Forall (skipped H rec a v) pre ->
  rec a v (Some t) = Raise e cs -> is_ValueError H e = false ->
  try_alternatives H rec a v u (pre ++ t :: post) = Raise e cs.
Proof.
  intros Hpre Ht He. rewrite try_alternatives_skip by assumption.
  simpl. now rewrite Ht, He.
Qed.

Lemma try_alternatives_moves_on (pre post : list ty) (t : ty) e cs :
  Forall (skipped H rec a v) pre ->
  rec a v (Some t) = Raise e cs -> is_ValueError H e = true ->
  try_alternatives H rec a v u (pre ++ t :: post)
  = try_alternatives H rec a v u post.
Proof.
  intros Hpre Ht He. rewrite try_alternatives_skip by assumption.
  simpl. now rewrite Ht, He.
Qed.

Lemma try_alternatives_Return (alts : list ty) :
  (forall t, In t alts ->
     rec a v (Some t) = Return \/ skipped H rec a v t) ->
  (try_alternatives H rec a v u alts = Return
   <-> exists t, In t alts /\ rec a v (Some t) = Return)
  /\ (try_alternatives H rec a v u alts = Return
      \/ try_alternatives H rec a v u alts
         = Raise (UnionLikeError v (name a) u) []).
Proof.
  induction alts as [|t alts IH]; intros Halts; simpl.
  - split; [|now right]. split; [discriminate | intros (t & [] & _)].
  - destruct (Halts t (or_introl eq_refl)) as [Ht|(e & cs & Ht & He)].
    + rewrite Ht. split; [|now left]. split; eauto.
    + rewrite Ht, He.
      destruct IH as [IH1 IH2]; [intros t' Ht'; apply Halts; now right|].
      split; [|exact IH2]. rewrite IH1. split.
      * intros (t' & Hin & Hr). eauto.
      * intros (t' & [<-|Hin] & Hr); [congruence | eauto].
Qed.

End Alternatives.

Lemma validate_union (H : Hierarchy) a v (alts : list ty) :
  validate H a v (Some (T_generic T_Union alts))
  = _handle_union_like H (validate H) a v (T_generic T_Union alts) alts.
Proof. rewrite validate_unfold. reflexivity. Qed.

Lemma validate_constraints (H : Hierarchy) a v n (cs : list ty) :
  cs <> [] ->
  validate H a v (Some (T_TypeVar n None cs))
  = _handle_union_like H (validate H) a v (T_TypeVar n None cs) cs.
Proof.
  intros Hne. rewrite validate_unfold.
  destruct cs as [|c cs]; [contradiction | reflexivity].
Qed.

(** C5.  In the scan over the alternatives of a union or of a constrained
    type variable, an alternative whose validation raises a [ValueError]
    makes the scan go on with the alternatives after it; one whose
    validation raises anything else ends the dispatch with that very
    exception, whatever alternatives follow and whatever their validation
    would do. *)
Theorem union_scan (H : Hierarchy) (a : Attribute) (v : value) (u : ty)
  (pre : list ty) (t : ty) (post : list ty) (e : exn) (cs : list value) :
  (u = T_generic T_Union (pre ++ t :: post)
   \/ exists n, u = T_TypeVar n None (pre ++ t :: post)) ->
  is_None v && existsb is_NoneType (pre ++ t :: post) = false ->
  Forall (skipped H (validate H) a v) pre ->
  validate H a v (Some t) = Raise e cs ->
  (is_ValueError H e = true ->
   validate H a v (Some u) = try_alternatives H (validate H) a v u post)
  /\ (is_ValueError H e = false ->
      validate H a v (Some u) = Raise e cs
      /\ forall rec post',
           Forall (skipped H rec a v) pre ->
           rec a v (Some t) = Raise e cs ->
           try_alternatives H rec a v u (pre ++ t :: post') = Raise e cs).
Proof.
  intros Hu Hnone Hpre Ht.
  assert (Hdispatch :
            validate H a v (Some u)
            = try_alternatives H (validate H) a v u (pre ++ t :: post)).
  { destruct Hu as [->|[n ->]].
    - rewrite validate_union. unfold _handle_union_like. now rewrite Hnone.
    - rewrite validate_constraints by (now destruct pre).
      unfold _handle_union_like. now rewrite Hnone. }
  split; intros He.
  - rewrite Hdispatch. eapply try_alternatives_moves_on; eassumption.
  - split.
    + rewrite Hdispatch. eapply try_alternatives_propagates; eassumption.
    + intros rec post' Hpre' Ht'.
      eapply try_alternatives_propagates; eassumption.
Qed.

Lemma union_scan_witness :
  validate spec_hierarchy (Samples.attr Samples.pending_or_int) (VInt 3)
    (Some Samples.pending_or_int)
  = Raise _StringAnnotationError [].
Proof.
  pose proof (union_scan spec_hierarchy (Samples.attr Samples.pending_or_int)
                (VInt 3) Samples.pending_or_int [] (T_ForwardRef "Foo")
                [Samples.int] _StringAnnotationError []
                (or_introl eq_refl) eq_refl (Forall_nil _) eq_refl)
    as [_ Hstop].
  exact (proj1 (Hstop eq_refl)).
Defined.

Lemma none_short_circuit (H : Hierarchy) a v (alts : list ty) :
  is_None v && existsb is_NoneType alts = true ->
  exists t, In t alts /\ validate H a v (Some t) = Return.
Proof.
  intros Hb. apply andb_true_iff in Hb as [Hv Hex].
  apply existsb_exists in Hex as (t & Hin & Ht).
  exists t. split; [assumption|].
  destruct v; try discriminate.
  destruct t as [| | |c| | | | | |]; try discriminate.
  destruct c; try discriminate. reflexivity.
Qed.

Lemma constraints_Return (H : Hierarchy) a v n (cs : list ty) :
  cs <> [] ->
  (forall c, In c cs ->
     validate H a v (Some c) = Return \/ skipped H (validate H) a v c) ->
  (validate H a v (Some (T_TypeVar n None cs)) = Return
   <-> exists c, In c cs /\ validate H a v (Some c) = Return)
  /\ (validate H a v (Some (T_TypeVar n None cs)) = Return
      \/ validate H a v (Some (T_TypeVar n None cs))
         = Raise (UnionLikeError v (name a) (T_TypeVar n None cs)) []).
Proof.
  intros Hne Hcs. rewrite validate_constraints by assumption.
  unfold _handle_union_like.
  destruct (is_None v && existsb is_NoneType cs) eqn:Hnone.
  - split; [|now left]. split; [|reflexivity].
    intros _. now apply none_short_circuit.
  - now apply try_alternatives_Return.
Qed.

(** C4, as the code has it.  For a type variable with constraints, none of
    which fails on the value with anything but a [ValueError]: validation
    succeeds exactly when the value validates against one of the
    constraints, it fails with [UnionLikeError] otherwise, and permuting the
    constraints changes neither. *)
Theorem constraints_any_order (H : Hierarchy) (a : Attribute) (v : value)
  (n : string) (cs : list ty) :
  cs <> [] ->
  (forall c, In c cs ->
     validate H a v (Some c) = Return \/ skipped H (validate H) a v c) ->
  (validate H a v (Some (T_TypeVar n None cs)) = Return
   <-> exists c, In c cs /\ validate H a v (Some c) = Return)
  /\ (validate H a v (Some (T_TypeVar n None cs)) = Return
      \/ validate H a v (Some (T_TypeVar n None cs))
         = Raise (UnionLikeError v (name a) (T_TypeVar n None cs)) [])
  /\ (forall cs', Permutation cs cs' ->
        (validate H a v (Some (T_TypeVar n None cs')) = Return
         <-> validate H a v (Some (T_TypeVar n None cs)) = Return)
        /\ (validate H a v (Some (T_TypeVar n None cs')) = Return
            \/ validate H a v (Some (T_TypeVar n None cs'))
               = Raise (UnionLikeError v (name a) (T_TypeVar n None cs')) [])).
Proof.
  intros Hne Hcs.
  destruct (constraints_Return H a v n cs Hne Hcs) as [Hiff Hkind].
  split; [exact Hiff|]. split; [exact Hkind|].
  intros cs' Hperm.
  assert (Hne' : cs' <> []).
  { intros ->. apply Permutation_sym, Permutation_nil in Hperm.
    contradiction. }
  assert (Hcs' : forall c, In c cs' ->
             validate H a v (Some c) = Return
             \/ skipped H (validate H) a v c).
  { intros c Hc. apply Hcs. eapply Permutation_in; [|exact Hc].
    now apply Permutation_sym. }
  destruct (constraints_Return H a v n cs' Hne' Hcs') as [Hiff' Hkind'].
  split; [|exact Hkind'].
  rewrite Hiff, Hiff'. split; intros (c & Hin & Hr); exists c; split; auto.
  - eapply Permutation_in; [|exact Hin]. now apply Permutation_sym.
  - eapply Permutation_in; eassumption.
Qed.

Lemma constraints_any_order_witness :
  validate spec_hierarchy (Samples.attr Samples.str_or_int) (VInt 42)
    (Some Samples.str_or_int) = Return.
Proof.
  assert (Hne : [Samples.str; Samples.int] <> []) by discriminate.
  assert (Hcs : forall c, In c [Samples.str; Samples.int] ->
            validate spec_hierarchy (Samples.attr Samples.str_or_int)
              (VInt 42) (Some c) = Return
            \/ skipped spec_hierarchy (validate spec_hierarchy)
                 (Samples.attr Samples.str_or_int) (VInt 42) c).
  { intros c [<-|[<-|[]]].
    - right. unfold skipped. do 2 eexists. split; reflexivity.
    - left. reflexivity. }
  pose proof (constraints_any_order spec_hierarchy
                (Samples.attr Samples.str_or_int) (VInt 42) "SomeTypeVar"
                [Samples.str; Samples.int] Hne Hcs) as [Hiff _].
  apply Hiff. exists Samples.int. split; [simpl; auto | reflexivity].
Defined.

(** C4, as stated, fails: the value [3] validates against the constraint
    [int], yet validation against [TypeVar("T", "Foo", int)] does not
    succeed, while it does with the constraints in the other order. *)
Lemma constraints_order_matters :
  validate spec_hierarchy (Samples.attr Samples.T_pending_int) (VInt 3)
    (Some Samples.int) = Return
  /\ validate spec_hierarchy (Samples.attr Samples.T_pending_int) (VInt 3)
       (Some Samples.T_pending_int) = Raise _StringAnnotationError []
  /\ validate spec_hierarchy (Samples.attr Samples.T_pending_int) (VInt 3)
       (Some Samples.T_int_pending) = Return
  /\ Permutation [T_ForwardRef "Foo"; Samples.int]
       [Samples.int; T_ForwardRef "Foo"].
Proof. repeat split; try reflexivity. apply perm_swap. Qed.

(* ================================================================== *)
(** ** The field-level entry point *)

(** C9.  With [empty_ok] false, a falsy value is rejected with [EmptyError]
    whatever the declared type is: the validator is not called, nor are the
    types resolved. *)
Theorem empty_check_first (H : Hierarchy)
  (get_type_hints : exn + list (string * ty)) (instance : Owner)
  (field : value) :
  truthy field = false ->
  type_validator H get_type_hints false instance field
  = (Raise (EmptyError field (owner_attribute instance)) [], instance, []).
Proof. intros Hfalsy. unfold type_validator. now rewrite Hfalsy. Qed.

Lemma empty_check_first_witness :
  type_validator spec_hierarchy (inr []) false Samples.list_owner (VList [])
  = (Raise (EmptyError (VList []) (Samples.attr (Samples.List_ Samples.int)))
       [], Samples.list_owner, []).
Proof.
  apply (empty_check_first spec_hierarchy (inr []) Samples.list_owner
           (VList [])).
  reflexivity.
Defined.

(** C2.  When the validation of a field comes upon an unresolved string or
    forward reference, the entry point calls [resolve_types] once, which
    rewrites the types stored in the attribute objects of the class, and
    validates once more against the type the attribute now holds.  Whatever
    the second validation does is the outcome: if it comes upon an
    unresolved reference again, that exception reaches the caller, and
    [resolve_types] has still been called once only. *)
Theorem forward_reference_retried_once (H : Hierarchy)
  (get_type_hints : exn + list (string * ty)) (empty_ok : bool)
  (instance : Owner) (field : value) (cs0 : list value) :
  negb empty_ok && negb (truthy field) = false ->
  validate H (owner_attribute instance) field
    (type (owner_attribute instance)) = Raise _StringAnnotationError cs0 ->
  let t0 := type (owner_attribute instance) in
  (forall e, resolve_types get_type_hints instance = inl e ->
     type_validator H get_type_hints empty_ok instance field
     = (Raise e [], instance, [Validated t0; Resolved]))
  /\ (forall hints, get_type_hints = inr hints ->
        let instance' :=
          {| owner_attribute := resolve_field hints (owner_attribute instance);
             owner_others := map (resolve_field hints)
                               (owner_others instance) |} in
        let attribute' := owner_attribute instance' in
        type_validator H get_type_hints empty_ok instance field
        = (validate H attribute' field (type attribute'), instance',
           [Validated t0; Resolved; Validated (type attribute')])
        /\ (forall cs1,
              validate H attribute' field (type attribute')
              = Raise _StringAnnotationError cs1 ->
              type_validator H get_type_hints empty_ok instance field
              = (Raise _StringAnnotationError cs1, instance',
                 [Validated t0; Resolved; Validated (type attribute')])))
  /\ resolutions (snd (type_validator H get_type_hints empty_ok instance
                         field)) = 1
  /\ validations (snd (type_validator H get_type_hints empty_ok instance
                         field)) <= 2.
Proof.
  intros Hcheck Hfirst t0.
  assert (Hrun :
            type_validator H get_type_hints empty_ok instance field
            = match resolve_types get_type_hints instance with
              | inl e => (Raise e [], instance, [Validated t0; Resolved])
              | inr instance' =>
                  (validate H (owner_attribute instance') field
                     (type (owner_attribute instance')), instance',
                   [Validated t0; Resolved;
                    Validated (type (owner_attribute instance'))])
              end).
  { unfold type_validator. now rewrite Hcheck, Hfirst. }
  split; [|split; [|split]].
  - intros e He. now rewrite Hrun, He.
  - intros hints ->. simpl. split.
    + rewrite Hrun. reflexivity.
    + intros cs1 Hsecond. rewrite Hrun. simpl. now rewrite Hsecond.
  - rewrite Hrun. destruct (resolve_types get_type_hints instance);
      reflexivity.
  - rewrite Hrun. destruct (resolve_types get_type_hints instance);
      simpl; unfold validations; simpl; lia.
Qed.

Lemma forward_reference_retried_once_witness :
  type_validator spec_hierarchy (inr [("zoo", Samples.int)]) true
    Samples.pending_owner (VInt 3)
  = (Return,
     {| owner_attribute := {| name := "zoo"; type := Some Samples.int |};
        owner_others := [] |},
     [Validated (Some (T_str "Foo")); Resolved; Validated (Some Samples.int)]).
Proof.
  pose proof (forward_reference_retried_once spec_hierarchy
                (inr [("zoo", Samples.int)]) true Samples.pending_owner
                (VInt 3) [] eq_refl eq_refl) as (_ & Hretry & _).
  exact (proj1 (Hretry [("zoo", Samples.int)] eq_refl)).
Defined.

(* ================================================================== *)
(** ** Bounds of type variables *)

(** A bound that is a runtime class is transparent: the type variable
    validates as its bound does. *)
Lemma bound_class_transparent (H : Hierarchy) a v n (c : cls)
  (cs : list ty) :
  validate H a v (Some (T_TypeVar n (Some (T_class c)) cs))
  = validate H a v (Some (T_class c)).
Proof.
  rewrite !validate_unfold.
  rewrite (body_guarded H (validate H) a v
             (T_TypeVar n (Some (T_class c)) cs)
             (issubclass (type_of v) c)) by reflexivity.
  rewrite (body_guarded H (validate H) a v (T_class c)
             (issubclass (type_of v) c)) by reflexivity.
  reflexivity.
Qed.

(** A bound that is a subscripted generic is handed to [isinstance] as it
    is, which raises [TypeError] whatever the value. *)
Lemma bound_generic_raises (H : Hierarchy) a v n (o : ty) (args cs : list ty) :
  validate H a v (Some (T_TypeVar n (Some (T_generic o args)) cs))
  = Raise TypeError [].
Proof. rewrite validate_unfold. reflexivity. Qed.

(** C3 fails on the code: the list [[1]] validates against
    [typing.List[int]], but against a type variable bound to
    [typing.List[int]] the validator raises [TypeError]. *)
Theorem bound_container_not_transparent (H : Hierarchy) (a : Attribute) :
  validate H a (VList [VInt 1]) (Some (Samples.List_ Samples.int)) = Return
  /\ validate H a (VList [VInt 1]) (Some Samples.T_bound_list)
     = Raise TypeError [].
Proof. split; reflexivity. Qed.

(* ================================================================== *)
(** ** The instance check before the handlers *)

(** A value that is not an instance of the base type is rejected with
    [AttributeTypeError] by the body itself, whatever the recursive calls
    would do: no handler runs. *)
Lemma not_an_instance_rejected (H : Hierarchy) rec a v (t : ty) :
  isinstance v (_get_base_type t) = Some false ->
  _validate_elements_body H rec a v (Some t) = Raise (AttributeTypeError v a) [].
Proof. intros Hi. now rewrite (body_guarded H rec a v t false). Qed.

(** On the values that pass the instance check, the iteration, the length
    and the item lookup of the handlers do not raise. *)
Lemma handlers_read_the_value (v : value) (o : ty) :
  isinstance v o = Some true ->
  (member o SimilarTypes.List = true -> exists xs, iter v = inr xs)
  /\ (member o SimilarTypes.Dict = true -> exists items, iter_items v = inr items)
  /\ (member o SimilarTypes.Tuple = true ->
      exists xs, iter v = inr xs /\ len v = inr (List.length xs))
  /\ (member o SimilarTypes.Callable = true -> exists s, signature v = inr s).
Proof.
  intros Hi. repeat split; intros Hm.
  - destruct (sequence_instance v o Hm Hi) as (xs & [->| ->]); simpl; eauto.
  - destruct (mapping_instance v o Hm Hi) as (items & ->); simpl; eauto.
  - destruct (tuple_instance v o Hm Hi) as (xs & ->); simpl; eauto.
  - destruct o as [| | |c|al| | | | |]; try discriminate;
      [destruct c | destruct al]; try discriminate;
      destruct v; try discriminate; simpl; eauto.
Qed.

(** The destructuring of [expected_type.__args__] succeeds on a subscripted
    generic of the right arity. *)
Lemma sequence_handler_runs (H : Hierarchy) rec a v (o element_type : ty) :
  member o SimilarTypes.List = true -> isinstance v o = Some true ->
  exists xs,
    iter v = inr xs
    /\ _validate_elements_body H rec a v (Some (T_generic o [element_type]))
       = for_each
           (fun x => recording H v (rec a x (Some element_type))) xs.
Proof.
  intros Hm Hi.
  destruct (sequence_instance v o Hm Hi) as (xs & Hv).
  exists xs. rewrite body_sequence by assumption.
  destruct Hv as [-> | ->]; split; reflexivity.
Qed.

(** C10 fails on the code: a list is an instance of the bare class [list],
    the sequence handler is reached, and its destructuring of
    [expected_type.__args__] raises [AttributeError]. *)
Theorem bare_list_destructuring_raises (H : Hierarchy) (a : Attribute)
  (xs : list value) :
  isinstance (VList xs) (_get_base_type (T_class c_list)) = Some true
  /\ validate H a (VList xs) (Some (T_class c_list)) = Raise AttributeError [].
Proof. split; reflexivity. Qed.

(* ================================================================== *)
(** ** The compatibility matcher *)

(** Induction on type hints, through the lists they hold. *)
Lemma ty_nested_ind (P : ty -> Prop) :
  P T_Any -> P T_Union -> P T_Ellipsis ->
  (forall c, P (T_class c)) -> (forall al, P (T_alias al)) ->
  (forall s, P (T_str s)) -> (forall s, P (T_ForwardRef s)) ->
  (forall o args, P o -> Forall P args -> P (T_generic o args)) ->
  (forall n s, P s -> P (T_NewType n s)) ->
  (forall n b cs, (forall x, b = Some x -> P x) -> Forall P cs ->
                  P (T_TypeVar n b cs)) ->
  forall t, P t.
Proof.
  intros HAny HUnion HEll Hclass Halias Hstr Hfwd Hgen Hnew Hvar.
  fix IH 1. intros t.
  destruct t as [| | |c|al|s|s|o args|n s|n b cs].
  - exact HAny.
  - exact HUnion.
  - exact HEll.
  - apply Hclass.
  - apply Halias.
  - apply Hstr.
  - apply Hfwd.
  - apply Hgen; [apply IH|].
    induction args as [|x l IHl]; constructor; [apply IH | exact IHl].
  - apply Hnew, IH.
  - apply Hvar.
    + destruct b as [y|]; [|discriminate].
      pose proof (IH y) as Py. intros x Hx. injection Hx as <-. exact Py.
    + induction cs as [|x l IHl]; constructor; [apply IH | exact IHl].
Qed.

Lemma cls_eqb_refl (c : cls) : cls_eqb c c = true.
Proof. destruct c; reflexivity. Qed.

Lemma typing_alias_eqb_refl (al : typing_alias) : typing_alias_eqb al al = true.
Proof. destruct al; reflexivity. Qed.

(** A type hint equals itself. *)
Lemma ty_eqb_refl (t : ty) : ty_eqb t t = true.
Proof.
  induction t as [| | |c|al|s|s|o args IHo IHargs|n s IHs|n b cs IHb IHcs]
    using ty_nested_ind; simpl;
    auto using cls_eqb_refl, typing_alias_eqb_refl, String.eqb_refl.
  - rewrite IHo. simpl.
    assert (Hgo : (fix go (l1 l2 : list ty) {struct l1} : bool :=
                     match l1, l2 with
                     | [], [] => true
                     | x :: l1', y :: l2' => ty_eqb x y && go l1' l2'
                     | _, _ => false
                     end) args args = true).
    { induction IHargs as [|x l Hx _ IHl]; [reflexivity|]. now rewrite Hx. }
    assert (Hset : forallb (fun x => existsb (fun y => ty_eqb x y) args) args
                   = true).
    { apply forallb_forall. intros x Hx. apply existsb_exists.
      exists x. split; [assumption|].
      rewrite Forall_forall in IHargs. now apply IHargs. }
    assert (Hset' : forallb (fun y => existsb (fun x => ty_eqb x y) args) args
                    = true).
    { apply forallb_forall. intros x Hx. apply existsb_exists.
      exists x. split; [assumption|].
      rewrite Forall_forall in IHargs. now apply IHargs. }
    destruct o; try exact Hgo. now rewrite Hset, Hset'.
  - now rewrite String.eqb_refl, IHs.
  - rewrite String.eqb_refl. simpl.
    assert (Hgo : (fix go (l1 l2 : list ty) {struct l1} : bool :=
                     match l1, l2 with
                     | [], [] => true
                     | x :: l1', y :: l2' => ty_eqb x y && go l1' l2'
                     | _, _ => false
                     end) cs cs = true).
    { induction IHcs as [|y l Hy _ IHl]; [reflexivity | now rewrite Hy]. }
    destruct b as [x|]; [rewrite (IHb x eq_refl)|]; exact Hgo.
Qed.

(** The first test of [_type_matching]. *)
Lemma _type_matching_ty_first (actual : option ty) (expected : ty) :
  opt_ty_eqb (Some (unwrap expected)) (option_map unwrap actual)
  || ty_eqb (unwrap expected) T_Any = true ->
  _type_matching_ty actual expected = inr true.
Proof.
  intros Hfirst. destruct expected; simpl in *; now rewrite Hfirst.
Qed.

(** C6, as the code has it.  The matcher succeeds when the two descriptors,
    each with a [NewType] or [TypeVar] replaced by its base type, are equal,
    and when the expected one is then [Any], whatever the actual one is; in
    particular a descriptor is compatible with itself and every descriptor
    is compatible with the expected [Any]. *)
Theorem type_matching_equal_or_expected_any (actual : option ty)
  (expected : ty) :
  option_map unwrap actual = Some (unwrap expected)
  \/ unwrap expected = T_Any ->
  _type_matching actual (Some expected) = inr true.
Proof.
  intros Hcase. simpl. apply _type_matching_ty_first.
  destruct Hcase as [-> | ->].
  - simpl. now rewrite ty_eqb_refl.
  - apply orb_true_r.
Qed.

Lemma type_matching_equal_or_expected_any_witness :
  _type_matching (Some Samples.int) (Some T_Any) = inr true
  /\ _type_matching (Some (Samples.List_ Samples.int))
       (Some (Samples.List_ Samples.int)) = inr true.
Proof.
  split.
  - apply (type_matching_equal_or_expected_any (Some Samples.int) T_Any).
    right. reflexivity.
  - apply (type_matching_equal_or_expected_any
             (Some (Samples.List_ Samples.int)) (Samples.List_ Samples.int)).
    left. reflexivity.
Defined.

(** C6, as stated, fails: with [Any] on the actual side and [int] on the
    expected side the matcher returns [False]. *)
Lemma actual_any_not_compatible :
  _type_matching (Some T_Any) (Some (T_class c_int)) = inr false.
Proof. reflexivity. Qed.

(* ================================================================== *)
(** ** The depth of the recursion *)

(** X1.  The recursion of [_validate_elements] goes through the arguments
    and constraints of the expected type only: once the depth allowed
    exceeds the nesting of the type, the validator finishes on every value,
    and its outcome is the same for every such depth. *)
Theorem recursion_bounded_by_nesting (H : Hierarchy) (fuel : nat)
  (a : Attribute) (v : value) (t : ty) :
  nesting t < fuel ->
  _validate_elements H fuel a v (Some t) <> OutOfFuel
  /\ forall fuel', nesting t < fuel' ->
       _validate_elements H fuel' a v (Some t)
       = _validate_elements H fuel a v (Some t).
Proof.
  intros Hlt. split.
  - now apply _validate_elements_total.
  - intros fuel' Hlt'. now apply _validate_elements_stable.
Qed.

Lemma recursion_bounded_by_nesting_witness :
  _validate_elements spec_hierarchy 2
    (Samples.attr (Samples.List_ Samples.int))
    (VList [VList [VList [VInt 1]]]) (Some (Samples.List_ Samples.int))
  <> OutOfFuel.
Proof.
  apply (recursion_bounded_by_nesting spec_hierarchy 2
           (Samples.attr (Samples.List_ Samples.int))
           (VList [VList [VList [VInt 1]]]) (Samples.List_ Samples.int)).
  simpl. lia.
Defined.

(* ================================================================== *)
(** ** What the matcher raises *)

Lemma _type_matching_ty_eq (actual : option ty) (expected : ty) :
  _type_matching_ty actual expected
  = if opt_ty_eqb (Some (unwrap expected)) (option_map unwrap actual)
       || ty_eqb (unwrap expected) T_Any
    then inr true
    else if ty_eqb (_get_base_type expected) T_Union then
      match expected with
      | T_TypeVar _ _ constraints =>
          any_matching (_type_matching_ty actual) constraints
      | T_generic _ args => any_matching (_type_matching_ty actual) args
      | T_alias _ => inl TypeError
      | _ => inl AttributeError
      end
    else if member (_get_base_type expected) similar_containers then
      match actual with
      | Some (T_generic _ actual_args) =>
          match expected with
          | T_generic _ expected_args =>
              all_matching _type_matching_ty actual_args expected_args
          | T_alias _ => inl TypeError
          | _ => inl AttributeError
          end
      | Some (T_alias _) =>
          match expected with
          | T_generic _ _ | T_alias _ => inl TypeError
          | _ => inl AttributeError
          end
      | _ => inl AttributeError
      end
    else inr false.
Proof. destruct expected; reflexivity. Qed.

Lemma any_matching_raises (matching : ty -> exn + bool) (l : list ty) :
  Forall (fun c => matcher_raises (matching c)) l ->
  matcher_raises (any_matching matching l).
Proof.
  induction 1 as [|c l Hc _ IH]; simpl; [exact I|].
  destruct (matching c) as [e|[|]]; auto.
Qed.

Lemma all_matching_raises (matching : option ty -> ty -> exn + bool)
  (expecteds : list ty) :
  Forall (fun e => forall a, matcher_raises (matching a e)) expecteds ->
  forall actuals, matcher_raises (all_matching matching actuals expecteds).
Proof.
  induction 1 as [|e l He _ IH]; intros [|a actuals]; simpl; try exact I.
  - specialize (He None). destruct (matching None e) as [x|[|]]; auto.
  - specialize (He (Some a)). destruct (matching (Some a) e) as [x|[|]]; auto.
Qed.

Lemma _type_matching_ty_raises (expected : ty) :
  forall actual, matcher_raises (_type_matching_ty actual expected).
Proof.
  induction expected
    as [| | |c|al|s|s|o args IHo IHargs|n s IHs|n b cs IHb IHcs]
    using ty_nested_ind; intros actual; rewrite _type_matching_ty_eq;
    repeat match goal with
      | |- matcher_raises (if ?b then _ else _) => destruct b
      | |- matcher_raises (inr _) => exact I
      | |- matcher_raises (inl TypeError) => now left
      | |- matcher_raises (inl AttributeError) => now right
      | |- matcher_raises (match ?x with _ => _ end) => destruct x
      end;
    try (apply any_matching_raises;
         eapply Forall_impl; [|eassumption]; intros c Hc; apply Hc);
    try (apply all_matching_raises; assumption).
Qed.

Lemma _type_matching_raises (actual expected : option ty) :
  matcher_raises (_type_matching actual expected).
Proof.
  destruct expected as [e|]; simpl;
    [apply _type_matching_ty_raises | exact I].
Qed.

(* ================================================================== *)
(** ** Invariants of the outcome *)

Section Invariant.

Variable H : Hierarchy.

(** A property of the outcome of validating a value, kept by returning, by
    every exception the body raises itself, and by the recording of a
    container. *)
Variable Inv : value -> outcome -> Prop.
Hypothesis Inv_Return : forall v, Inv v Return.
Hypothesis Inv_OutOfFuel : forall v, Inv v OutOfFuel.
Hypothesis Inv_raise :
  forall v e, raised_by_validator e -> Inv v (Raise e []).
Hypothesis Inv_recording :
  forall v x r, Inv x r -> Inv v (recording H v r).

Lemma for_each_invariant {A : Type} (P : outcome -> Prop) (f : A -> outcome)
  (xs : list A) :
  P Return -> (forall x, In x xs -> P (f x)) -> P (for_each f xs).
Proof.
  intros HR. induction xs as [|x xs IH]; intros Hf; simpl; [exact HR|].
  pose proof (Hf x (or_introl eq_refl)) as Hx.
  destruct (f x); try exact Hx.
  apply IH. intros y Hy. apply Hf. now right.
Qed.

Lemma try_alternatives_invariant rec a v u (alts : list ty) :
  (forall t, Inv v (rec a v (Some t))) ->
  Inv v (try_alternatives H rec a v u alts).
Proof.
  intros Hrec. induction alts as [|t alts IH]; simpl.
  - now apply Inv_raise.
  - pose proof (Hrec t) as Ht.
    destruct (rec a v (Some t)) as [|e cs|]; try exact Ht.
    destruct (is_ValueError H e); [exact IH | exact Ht].
Qed.

Lemma _handle_union_like_invariant rec a v u (alts : list ty) :
  (forall t, Inv v (rec a v (Some t))) ->
  Inv v (_handle_union_like H rec a v u alts).
Proof.
  intros Hrec. unfold _handle_union_like.
  destruct (is_None v && existsb is_NoneType alts);
    [apply Inv_Return | now apply try_alternatives_invariant].
Qed.

Lemma _handle_callable_invariant a v (t : ty) :
  Inv v (_handle_callable a v t).
Proof.
  unfold _handle_callable.
  destruct (signature v) as [e|sig] eqn:Hsig.
  { destruct v; try discriminate; injection Hsig as <-; now apply Inv_raise. }
  destruct (getattr_args t) as [[|d ds]|]; try apply Inv_Return.
  apply for_each_invariant; [apply Inv_Return|].
  intros [ca ea] _.
  pose proof (_type_matching_raises ca ea) as Hm.
  destruct (_type_matching ca ea) as [e|[|]].
  - destruct Hm as [-> | ->]; now apply Inv_raise.
  - apply Inv_Return.
  - now apply Inv_raise.
Qed.

Lemma get_args_raises (t : ty) (e : exn) :
  get_args t = inl e -> raised_by_validator e.
Proof. destruct t; simpl; intros He; inversion He; exact I. Qed.

Lemma iter_raises (v : value) (e : exn) :
  iter v = inl e -> raised_by_validator e.
Proof. destruct v; simpl; intros He; inversion He; exact I. Qed.

Lemma len_raises (v : value) (e : exn) :
  len v = inl e -> raised_by_validator e.
Proof. destruct v; simpl; intros He; inversion He; exact I. Qed.

Lemma iter_items_raises (v : value) (e : exn) :
  iter_items v = inl e -> raised_by_validator e.
Proof. destruct v; simpl; intros He; inversion He; exact I. Qed.

(** The body of [_validate_elements] keeps the property when its recursive
    calls do. *)
Lemma body_invariant rec a v (t : option ty) :
  (forall a' v' t', Inv v' (rec a' v' t')) ->
  Inv v (_validate_elements_body H rec a v t).
Proof.
  intros Hrec. destruct t as [t|]; [|apply Inv_Return].
  unfold _validate_elements_body.
  destruct (ty_eqb (_get_base_type t) T_Any); [apply Inv_Return|].
  destruct (is_str_or_ForwardRef (_get_base_type t));
    [now apply Inv_raise|].
  destruct (ty_eqb (_get_base_type t) T_Union).
  { destruct (is_typevar t).
    - destruct (get_constraints t) as [e|cs] eqn:Hcs.
      + destruct t; simpl in Hcs; inversion Hcs; now apply Inv_raise.
      + apply _handle_union_like_invariant. intros; apply Hrec.
    - destruct (get_args t) as [e|args] eqn:Hargs.
      + apply Inv_raise. eapply get_args_raises; eassumption.
      + apply _handle_union_like_invariant. intros; apply Hrec. }
  destruct (isinstance v (_get_base_type t)) as [[|]|];
    try (now apply Inv_raise).
  destruct (member (_get_base_type t) SimilarTypes.List).
  { unfold _handle_set_or_list.
    destruct (get_args t) as [e|args] eqn:Hargs.
    { apply Inv_raise. eapply get_args_raises; eassumption. }
    destruct args as [|et [|]]; try (now apply Inv_raise).
    destruct (iter v) as [e|xs] eqn:Hiter.
    { apply Inv_raise. eapply iter_raises; eassumption. }
    apply for_each_invariant; [apply Inv_Return|].
    intros x _. eapply Inv_recording, Hrec. }
  destruct (member (_get_base_type t) SimilarTypes.Dict).
  { unfold _handle_dict.
    destruct (get_args t) as [e|args] eqn:Hargs.
    { apply Inv_raise. eapply get_args_raises; eassumption. }
    destruct args as [|kt [|vt [|]]]; try (now apply Inv_raise).
    destruct (iter_items v) as [e|items] eqn:Hiter.
    { apply Inv_raise. eapply iter_items_raises; eassumption. }
    apply for_each_invariant; [apply Inv_Return|].
    intros [k x] _. unfold seq.
    pose proof (Hrec a k (Some kt)) as Hk.
    destruct (rec a k (Some kt)) as [|e cs|].
    - eapply Inv_recording, Hrec.
    - eapply Inv_recording, Hk.
    - eapply Inv_recording, Hk. }
  destruct (member (_get_base_type t) SimilarTypes.Tuple).
  { unfold _handle_tuple.
    destruct (get_args t) as [e|args] eqn:Hargs.
    { apply Inv_raise. eapply get_args_raises; eassumption. }
    destruct (len v) as [e|n] eqn:Hlen.
    { apply Inv_raise. eapply len_raises; eassumption. }
    destruct (iter v) as [e|xs] eqn:Hiter.
    { apply Inv_raise. eapply iter_raises; eassumption. }
    destruct (negb (Nat.eqb n (List.length (expand_tuple_types args n))));
      [now apply Inv_raise|].
    apply for_each_invariant; [apply Inv_Return|].
    intros [x et] _. eapply Inv_recording, Hrec. }
  destruct (member (_get_base_type t) SimilarTypes.Callable);
    [apply _handle_callable_invariant | apply Inv_Return].
Qed.

Lemma _validate_elements_invariant (fuel : nat) :
  forall a v t, Inv v (_validate_elements H fuel a v t).
Proof.
  induction fuel as [|fuel IH]; intros a v t; simpl;
    [apply Inv_OutOfFuel | now apply body_invariant].
Qed.

End Invariant.

(** X2.  Whatever [_validate_elements] raises, containers are recorded on
    it only if it is a [BadTypeError], and then the last one recorded, the
    outermost, is the value that was handed to the validator. *)
Theorem containers_end_with_the_value (H : Hierarchy) (a : Attribute)
  (v : value) (t : option ty) (e : exn) (cs : list value) :
  validate H a v t = Raise e cs ->
  cs = [] \/ (is_BadTypeError H e = true /\ exists inner, cs = inner ++ [v]).
Proof.
  revert e cs.
  apply (_validate_elements_invariant H
           (fun v r => forall e cs, r = Raise e cs ->
              cs = [] \/ (is_BadTypeError H e = true
                          /\ exists inner, cs = inner ++ [v]))).
  - discriminate.
  - discriminate.
  - intros v' e' _ e cs Heq. inversion Heq; subst. now left.
  - intros v' x r Hr e cs Heq.
    destruct r as [|e' cs'|]; simpl in Heq; try discriminate.
    destruct (is_BadTypeError H e') eqn:Hbad.
    + inversion Heq; subst. right. split; [assumption|].
      exists cs'. reflexivity.
    + inversion Heq; subst.
      destruct (Hr e cs eq_refl) as [->|[Hbad' _]]; [now left|congruence].
Qed.

Lemma containers_end_with_the_value_witness :
  [VList [VStr "a"; VInt 3]] = []
  \/ (is_BadTypeError spec_hierarchy
        (AttributeTypeError (VInt 3) (Samples.attr (Samples.List_ Samples.str)))
      = true
      /\ exists inner,
           [VList [VStr "a"; VInt 3]] = inner ++ [VList [VStr "a"; VInt 3]]).
Proof.
  apply (containers_end_with_the_value spec_hierarchy
           (Samples.attr (Samples.List_ Samples.str))
           (VList [VStr "a"; VInt 3]) (Some (Samples.List_ Samples.str))).
  reflexivity.
Defined.

(** X3.  [_validate_elements] never raises [EmptyError] nor [NameError]:
    the emptiness failure comes from the entry point alone and a name that
    cannot be resolved from [typing.get_type_hints] alone. *)
Theorem validator_never_raises_EmptyError (H : Hierarchy) (a : Attribute)
  (v : value) (t : option ty) (cs : list value) :
  (forall field attribute,
      validate H a v t <> Raise (EmptyError field attribute) cs)
  /\ validate H a v t <> Raise NameError cs.
Proof.
  assert (Hinv : forall e cs', validate H a v t = Raise e cs' ->
                               raised_by_validator e).
  { apply (_validate_elements_invariant H
             (fun _ r => forall e cs', r = Raise e cs' ->
                                       raised_by_validator e)).
    - discriminate.
    - discriminate.
    - intros v0 e' He' e cs' Heq. inversion Heq; subst. exact He'.
    - intros v0 x r Hr e cs' Heq.
      destruct r as [|e' cs''|]; simpl in Heq; try discriminate.
      destruct (is_BadTypeError H e'); inversion Heq; subst;
        eapply Hr; reflexivity. }
  split.
  - intros field attribute Heq. exact (Hinv _ _ Heq).
  - intros Heq. exact (Hinv _ _ Heq).
Qed.

(* ================================================================== *)
(** ** Wildcards and empty containers *)

(** X4.  A missing type, and a type whose base type is [typing.Any]
    ([Any] itself, a type variable with neither bound nor constraints, a
    [NewType] of [Any]), accept every value, and a sequence of such a type
    accepts every list or set whatever its elements. *)
Theorem wildcard_accepts_everything (H : Hierarchy) (a : Attribute) (t : ty) :
  _get_base_type t = T_Any ->
  (forall v, validate H a v None = Return)
  /\ (forall v, validate H a v (Some t) = Return)
  /\ (forall o container,
        member o SimilarTypes.List = true ->
        isinstance container o = Some true ->
        validate H a container (Some (T_generic o [t])) = Return).
Proof.
  intros Hbase.
  assert (Hany : forall v, validate H a v (Some t) = Return).
  { intros v. rewrite validate_unfold. unfold _validate_elements_body.
    now rewrite Hbase. }
  split; [reflexivity|]. split; [exact Hany|].
  intros o container Hm Hi. rewrite validate_unfold.
  destruct (sequence_handler_runs H (validate H) a container o t Hm Hi)
    as (xs & _ & ->).
  apply for_each_Return, Forall_forall. intros x _. now rewrite Hany.
Qed.

Lemma wildcard_accepts_everything_witness :
  validate spec_hierarchy (Samples.attr (T_TypeVar "SomeTypeVar" None []))
    (VList [VInt 1; VStr "foo"])
    (Some (Samples.List_ (T_TypeVar "SomeTypeVar" None []))) = Return.
Proof.
  apply (wildcard_accepts_everything spec_hierarchy
           (Samples.attr (T_TypeVar "SomeTypeVar" None []))
           (T_TypeVar "SomeTypeVar" None []) eq_refl);
    reflexivity.
Defined.

(** X5.  An empty list or set, an empty dictionary and an empty tuple
    against a repeated tuple type validate whatever the types of the
    members are, a still unresolved string included: at the entry point,
    with [empty_ok] true, such a value is accepted without any call of
    [resolve_types]. *)
Theorem empty_containers_validate (H : Hierarchy) (a : Attribute) :
  (forall o t container,
      member o SimilarTypes.List = true ->
      isinstance container o = Some true -> iter container = inr [] ->
      validate H a container (Some (T_generic o [t])) = Return)
  /\ (forall o kt vt,
        member o SimilarTypes.Dict = true ->
        isinstance (VDict []) o = Some true ->
        validate H a (VDict []) (Some (T_generic o [kt; vt])) = Return)
  /\ (forall o d,
        member o SimilarTypes.Tuple = true ->
        validate H a (VTuple []) (Some (T_generic o [d; T_Ellipsis]))
        = Return)
  /\ (forall get_type_hints instance o t container,
        member o SimilarTypes.List = true ->
        isinstance container o = Some true -> iter container = inr [] ->
        type (owner_attribute instance) = Some (T_generic o [t]) ->
        type_validator H get_type_hints true instance container
        = (Return, instance, [Validated (Some (T_generic o [t]))])).
Proof.
  assert (Hseq : forall a' o t container,
             member o SimilarTypes.List = true ->
             isinstance container o = Some true -> iter container = inr [] ->
             validate H a' container (Some (T_generic o [t])) = Return).
  { intros a' o t container Hm Hi Hiter.
    rewrite validate_unfold, body_sequence by assumption.
    unfold _handle_set_or_list. simpl. now rewrite Hiter. }
  split; [apply Hseq|]. split; [|split].
  - intros o kt vt Hm Hi.
    rewrite validate_unfold, body_mapping by assumption. reflexivity.
  - intros o d Hm.
    rewrite validate_unfold, body_tuple
      by (try assumption; now apply tuple_is_instance).
    reflexivity.
  - intros hints instance o t container Hm Hi Hiter Htype.
    unfold type_validator. simpl. rewrite Htype.
    now rewrite (Hseq (owner_attribute instance) o t container Hm Hi Hiter).
Qed.

Lemma empty_containers_validate_witness :
  type_validator spec_hierarchy (inl NameError) true
    {| owner_attribute := Samples.attr (Samples.List_ (T_str "Foo"));
       owner_others := [] |} (VList [])
  = (Return,
     {| owner_attribute := Samples.attr (Samples.List_ (T_str "Foo"));
        owner_others := [] |},
     [Validated (Some (Samples.List_ (T_str "Foo")))]).
Proof.
  apply (proj2 (proj2 (proj2
           (empty_containers_validate spec_hierarchy
              (Samples.attr (Samples.List_ (T_str "Foo"))))))
           (inl NameError)
           {| owner_attribute := Samples.attr (Samples.List_ (T_str "Foo"));
              owner_others := [] |}
           (T_class c_list) (T_str "Foo") (VList []));
    reflexivity.
Defined.

(* ================================================================== *)
(** ** Members decide *)

Lemma Forall_combine_Forall2 {A B : Type} (P : A -> B -> Prop)
  (xs : list A) (ys : list B) :
  List.length xs = List.length ys ->
  (Forall (fun p => P (fst p) (snd p)) (combine xs ys) <-> Forall2 P xs ys).
Proof.
  revert ys. induction xs as [|x xs IH]; intros [|y ys] Hlen;
    simpl in *; try discriminate.
  - split; constructor.
  - injection Hlen as Hlen. specialize (IH ys Hlen). split.
    + intros Hall. inversion Hall; subst. constructor; [assumption|].
      now apply IH.
    + intros Hall. inversion Hall; subst. constructor; [assumption|].
      now apply IH.
Qed.

(** X6.  A list or set validates against a sequence type exactly when every
    element validates against the element type. *)
Theorem sequence_validates_iff_elements (H : Hierarchy) (a : Attribute)
  (o element_type : ty) (container : value) :
  member o SimilarTypes.List = true ->
  isinstance container o = Some true ->
  exists xs,
    iter container = inr xs
    /\ (validate H a container (Some (T_generic o [element_type])) = Return
        <-> Forall (fun x => validate H a x (Some element_type) = Return) xs).
Proof.
  intros Hm Hi.
  destruct (sequence_handler_runs H (validate H) a container o element_type
              Hm Hi) as (xs & Hiter & Hrun).
  exists xs. split; [assumption|].
  rewrite validate_unfold, Hrun, for_each_Return.
  split; intros Hall; (eapply Forall_impl; [|exact Hall]);
    intros x; apply recording_Return.
Qed.

Lemma sequence_validates_iff_elements_witness :
  exists xs,
    iter (VSet [VInt 1; VInt 2]) = inr xs
    /\ (validate spec_hierarchy
          (Samples.attr (T_generic (T_class c_set) [Samples.int]))
          (VSet [VInt 1; VInt 2])
          (Some (T_generic (T_class c_set) [Samples.int])) = Return
        <-> Forall (fun x =>
                      validate spec_hierarchy
                        (Samples.attr (T_generic (T_class c_set) [Samples.int]))
                        x (Some Samples.int) = Return) xs).
Proof.
  apply (sequence_validates_iff_elements spec_hierarchy
           (Samples.attr (T_generic (T_class c_set) [Samples.int]))
           (T_class c_set) Samples.int (VSet [VInt 1; VInt 2]));
    reflexivity.
Defined.

(** X7.  A dictionary validates against a mapping type exactly when, for
    every item, the key validates against the key type and the value
    against the value type. *)
Theorem mapping_validates_iff_items (H : Hierarchy) (a : Attribute)
  (o key_type value_type : ty) (items : list (value * value)) :
  member o SimilarTypes.Dict = true ->
  isinstance (VDict items) o = Some true ->
  (validate H a (VDict items) (Some (T_generic o [key_type; value_type]))
   = Return
   <-> Forall (fun item =>
                 validate H a (fst item) (Some key_type) = Return
                 /\ validate H a (snd item) (Some value_type) = Return)
         items).
Proof.
  intros Hm Hi.
  rewrite validate_unfold, body_mapping by assumption.
  unfold _handle_dict. simpl. rewrite for_each_Return.
  split; intros Hall; (eapply Forall_impl; [|exact Hall]);
    intros [k x]; simpl; rewrite recording_Return; unfold seq.
  - destruct (validate H a k (Some key_type)); try discriminate. auto.
  - intros [-> ->]. reflexivity.
Qed.

Lemma mapping_validates_iff_items_witness :
  validate spec_hierarchy (Samples.attr (Samples.Dict_ Samples.str Samples.int))
    (VDict [(VStr "a", VInt 1)])
    (Some (Samples.Dict_ Samples.str Samples.int)) = Return.
Proof.
  apply (mapping_validates_iff_items spec_hierarchy
           (Samples.attr (Samples.Dict_ Samples.str Samples.int))
           (T_class c_dict) Samples.str Samples.int [(VStr "a", VInt 1)]);
    try reflexivity.
  repeat constructor.
Defined.

(** X8.  A tuple validates against a tuple type with positional descriptors
    exactly when it has as many elements as there are descriptors and each
    element validates against the descriptor at its position. *)
Theorem fixed_tuple_validates_iff_positions (H : Hierarchy) (a : Attribute)
  (o : ty) (es : list value) (ds : list ty) :
  member o SimilarTypes.Tuple = true ->
  is_repeated ds = false ->
  (validate H a (VTuple es) (Some (T_generic o ds)) = Return
   <-> Forall2 (fun e d => validate H a e (Some d) = Return) es ds).
Proof.
  intros Hm Hfixed.
  rewrite validate_unfold, body_tuple
    by (try assumption; now apply tuple_is_instance).
  unfold _handle_tuple. simpl. rewrite expand_fixed by assumption.
  destruct (Nat.eqb (List.length es) (List.length ds)) eqn:Hlen; simpl.
  - apply Nat.eqb_eq in Hlen.
    rewrite for_each_Return,
      <- (Forall_combine_Forall2
            (fun e d => validate H a e (Some d) = Return)) by assumption.
    split; intros Hall; (eapply Forall_impl; [|exact Hall]);
      intros [x d]; simpl; apply recording_Return.
  - apply Nat.eqb_neq in Hlen. split; [discriminate|].
    intros Hall. apply Forall2_length in Hall. contradiction.
Qed.

Lemma fixed_tuple_validates_iff_positions_witness :
  validate spec_hierarchy
    (Samples.attr (Samples.Tuple_ [Samples.int; Samples.str]))
    (VTuple [VInt 1; VStr "a"])
    (Some (Samples.Tuple_ [Samples.int; Samples.str])) = Return.
Proof.
  apply (fixed_tuple_validates_iff_positions spec_hierarchy
           (Samples.attr (Samples.Tuple_ [Samples.int; Samples.str]))
           (T_class c_tuple) [VInt 1; VStr "a"] [Samples.int; Samples.str]);
    try reflexivity.
  repeat constructor.
Defined.

(* ================================================================== *)
(** ** Alternatives *)

Lemma validate_alternatives (H : Hierarchy) a v (u : ty) (alts : list ty) :
  (u = T_generic T_Union alts
   \/ exists n, u = T_TypeVar n None alts /\ alts <> []) ->
  validate H a v (Some u) = _handle_union_like H (validate H) a v u alts.
Proof.
  intros [-> | (n & -> & Hne)];
    [apply validate_union | now apply validate_constraints].
Qed.

(** X9.  [None] validates against a union, or a type variable with
    constraints, that lists [NoneType], whatever the other alternatives
    are and wherever [NoneType] stands among them: no alternative is
    validated. *)
Theorem none_accepted_where_NoneType_listed (H : Hierarchy) (a : Attribute)
  (u : ty) (alts : list ty) :
  (u = T_generic T_Union alts \/ exists n, u = T_TypeVar n None alts) ->
  existsb is_NoneType alts = true ->
  validate H a VNone (Some u) = Return
  /\ forall rec, _handle_union_like H rec a VNone u alts = Return.
Proof.
  intros Hu Hnone.
  assert (Hrec : forall rec, _handle_union_like H rec a VNone u alts = Return).
  { intros rec. unfold _handle_union_like. simpl. now rewrite Hnone. }
  split; [|exact Hrec].
  rewrite (validate_alternatives H a VNone u alts); [apply Hrec|].
  destruct Hu as [->|[n ->]]; [now left|]. right. exists n.
  split; [reflexivity|]. intros ->. discriminate.
Qed.

Lemma none_accepted_where_NoneType_listed_witness :
  validate spec_hierarchy
    (Samples.attr (Samples.Union_ [T_ForwardRef "Foo"; T_class c_NoneType]))
    VNone (Some (Samples.Union_ [T_ForwardRef "Foo"; T_class c_NoneType]))
  = Return.
Proof.
  apply (none_accepted_where_NoneType_listed spec_hierarchy
           (Samples.attr
              (Samples.Union_ [T_ForwardRef "Foo"; T_class c_NoneType]))
           (Samples.Union_ [T_ForwardRef "Foo"; T_class c_NoneType])
           [T_ForwardRef "Foo"; T_class c_NoneType]).
  - left. reflexivity.
  - reflexivity.
Defined.

(** X10.  The first alternative against which the value validates ends the
    scan with success, provided the alternatives before it failed with a
    [ValueError]; what the alternatives after it are does not matter. *)
Theorem first_valid_alternative_wins (H : Hierarchy) (a : Attribute)
  (v : value) (u : ty) (pre : list ty) (t : ty) (post : list ty) :
  (u = T_generic T_Union (pre ++ t :: post)
   \/ exists n, u = T_TypeVar n None (pre ++ t :: post)) ->
  Forall (skipped H (validate H) a v) pre ->
  validate H a v (Some t) = Return ->
  validate H a v (Some u) = Return.
Proof.
  intros Hu Hpre Ht.
  rewrite (validate_alternatives H a v u (pre ++ t :: post)).
  - unfold _handle_union_like.
    destruct (is_None v && existsb is_NoneType (pre ++ t :: post));
      [reflexivity|].
    rewrite try_alternatives_skip by assumption. simpl. now rewrite Ht.
  - destruct Hu as [->|[n ->]]; [now left|]. right. exists n.
    split; [reflexivity | now destruct pre].
Qed.

Lemma first_valid_alternative_wins_witness :
  validate spec_hierarchy
    (Samples.attr (Samples.Union_ [Samples.str; Samples.int; T_ForwardRef "Foo"]))
    (VInt 3)
    (Some (Samples.Union_ [Samples.str; Samples.int; T_ForwardRef "Foo"]))
  = Return.
Proof.
  apply (first_valid_alternative_wins spec_hierarchy
           (Samples.attr
              (Samples.Union_ [Samples.str; Samples.int; T_ForwardRef "Foo"]))
           (VInt 3)
           (Samples.Union_ [Samples.str; Samples.int; T_ForwardRef "Foo"])
           [Samples.str] Samples.int [T_ForwardRef "Foo"]).
  - left. reflexivity.
  - constructor; [|constructor].
    unfold skipped. do 2 eexists. split; reflexivity.
  - reflexivity.
Defined.

(** X11.  For a union none of whose alternatives fails on the value with
    anything but a [ValueError]: validation succeeds exactly when the value
    validates against one of the alternatives; otherwise it raises
    [UnionLikeError] with the value, the name of the attribute and the
    union, and with no container recorded, whatever the failures of the
    alternatives carried. *)
Theorem union_validates_iff_alternative (H : Hierarchy) (a : Attribute)
  (v : value) (alts : list ty) :
  (forall t, In t alts ->
     validate H a v (Some t) = Return \/ skipped H (validate H) a v t) ->
  (validate H a v (Some (T_generic T_Union alts)) = Return
   <-> exists t, In t alts /\ validate H a v (Some t) = Return)
  /\ (validate H a v (Some (T_generic T_Union alts)) = Return
      \/ validate H a v (Some (T_generic T_Union alts))
         = Raise (UnionLikeError v (name a) (T_generic T_Union alts)) []).
Proof.
  intros Halts. rewrite validate_union. unfold _handle_union_like.
  destruct (is_None v && existsb is_NoneType alts) eqn:Hnone.
  - split; [|now left]. split; [|reflexivity].
    intros _. now apply none_short_circuit.
  - now apply try_alternatives_Return.
Qed.

Lemma union_validates_iff_alternative_witness :
  validate spec_hierarchy
    (Samples.attr (Samples.Union_ [Samples.List_ Samples.int; Samples.str]))
    (VList [VStr "x"])
    (Some (Samples.Union_ [Samples.List_ Samples.int; Samples.str]))
  = Raise (UnionLikeError (VList [VStr "x"]) "zoo"
             (Samples.Union_ [Samples.List_ Samples.int; Samples.str])) [].
Proof.
  assert (Halts :
            forall t, In t [Samples.List_ Samples.int; Samples.str] ->
              validate spec_hierarchy
                (Samples.attr
                   (Samples.Union_ [Samples.List_ Samples.int; Samples.str]))
                (VList [VStr "x"]) (Some t) = Return
              \/ skipped spec_hierarchy (validate spec_hierarchy)
                   (Samples.attr
                      (Samples.Union_ [Samples.List_ Samples.int; Samples.str]))
                   (VList [VStr "x"]) t).
  { intros t [<-|[<-|[]]]; right; unfold skipped; do 2 eexists;
      split; reflexivity. }
  destruct (union_validates_iff_alternative spec_hierarchy
              (Samples.attr
                 (Samples.Union_ [Samples.List_ Samples.int; Samples.str]))
              (VList [VStr "x"]) [Samples.List_ Samples.int; Samples.str]
              Halts) as [_ [Hr|Hr]].
  - discriminate Hr.
  - exact Hr.
Defined.

(* ================================================================== *)
(** ** Plain classes *)

(** X12.  A value that is not an instance of the base class of the expected
    type is rejected with [AttributeTypeError] carrying the value and the
    attribute, with no container, whatever the arguments of the type are;
    and against a class that is none of the container classes a value
    validates exactly when it is an instance. *)
Theorem instance_check_decides (H : Hierarchy) (a : Attribute) (v : value) :
  (forall t, isinstance v (_get_base_type t) = Some false ->
     validate H a v (Some t) = Raise (AttributeTypeError v a) [])
  /\ (forall c, member (T_class c) similar_containers = false ->
        validate H a v (Some (T_class c))
        = if issubclass (type_of v) c then Return
          else Raise (AttributeTypeError v a) []).
Proof.
  split.
  - intros t Hi. rewrite validate_unfold.
    now rewrite (body_guarded H (validate H) a v t false).
  - intros c Hc. rewrite validate_unfold.
    rewrite (body_guarded H (validate H) a v (T_class c)
               (issubclass (type_of v) c)) by reflexivity.
    destruct (issubclass (type_of v) c); [|reflexivity].
    destruct c; try discriminate; reflexivity.
Qed.

Lemma instance_check_decides_witness :
  validate spec_hierarchy (Samples.attr (Samples.List_ (T_str "Foo")))
    (VInt 3) (Some (Samples.List_ (T_str "Foo")))
  = Raise (AttributeTypeError (VInt 3)
             (Samples.attr (Samples.List_ (T_str "Foo")))) [].
Proof.
  exact (proj1 (instance_check_decides spec_hierarchy
                  (Samples.attr (Samples.List_ (T_str "Foo"))) (VInt 3))
           (Samples.List_ (T_str "Foo")) eq_refl).
Defined.

(* ================================================================== *)
(** ** Callables *)

Lemma function_is_callable (params : list ty) (ret o : ty) :
  member o SimilarTypes.Callable = true ->
  isinstance (VFunction params ret) o = Some true.
Proof.
  intros Hm.
  destruct o as [| | |c|al| | | | |]; try discriminate;
    [destruct c | destruct al]; try discriminate; reflexivity.
Qed.

Lemma validate_function (H : Hierarchy) a (params : list ty) (ret o t : ty) :
  member o SimilarTypes.Callable = true -> _get_base_type t = o ->
  validate H a (VFunction params ret) (Some t)
  = match getattr_args t with
    | None | Some [] => Return
    | Some expected_args =>
        for_each (check_pair a (params, ret) t)
          (zip_longest (params ++ [ret]) expected_args)
    end.
Proof.
  intros Hm Hbase. rewrite validate_unfold.
  rewrite (body_guarded H (validate H) a (VFunction params ret) t true)
    by (rewrite Hbase; now apply function_is_callable).
  rewrite Hbase.
  destruct o as [| | |c|al| | | | |]; try discriminate;
    [destruct c | destruct al]; try discriminate; reflexivity.
Qed.

(** X13.  Against a callable type that carries no arguments (the bare
    [typing.Callable] or [collections.abc.Callable], or one with an empty
    argument list) every function validates, whatever its signature. *)
Theorem callable_without_arguments_accepts_any_function (H : Hierarchy)
  (a : Attribute) (o : ty) (params : list ty) (ret : ty) :
  member o SimilarTypes.Callable = true ->
  validate H a (VFunction params ret) (Some o) = Return
  /\ validate H a (VFunction params ret) (Some (T_generic o [])) = Return.
Proof.
  intros Hm. split.
  - rewrite (validate_function H a params ret o o Hm).
    + destruct o as [| | |c|al| | | | |]; try discriminate; reflexivity.
    + destruct o as [| | |c|al| | | | |]; try discriminate; reflexivity.
  - now rewrite (validate_function H a params ret o (T_generic o []) Hm).
Qed.

Lemma callable_without_arguments_accepts_any_function_witness :
  validate spec_hierarchy (Samples.attr (T_alias typing_Callable))
    (VFunction [Samples.int; Samples.str] Samples.int)
    (Some (T_alias typing_Callable)) = Return.
Proof.
  apply (callable_without_arguments_accepts_any_function spec_hierarchy
           (Samples.attr (T_alias typing_Callable)) (T_alias typing_Callable)
           [Samples.int; Samples.str] Samples.int).
  reflexivity.
Defined.

(** X14.  The callable handler reports the first pair of annotations, in
    the order of the parameters and then the return annotation, that the
    matcher finds incompatible, when the expected type has arguments: it
    raises [CallableError] with the
    attribute, the signature, the expected type and that pair, and records
    no container. *)
Theorem callable_reports_first_mismatch (H : Hierarchy) (a : Attribute)
  (o : ty) (params : list ty) (ret : ty) (expected_args : list ty)
  (pre post : list (option ty * option ty))
  (callable_arg expected_arg : option ty) :
  member o SimilarTypes.Callable = true ->
  expected_args <> [] ->
  zip_longest (params ++ [ret]) expected_args
  = pre ++ (callable_arg, expected_arg) :: post ->
  Forall (fun pair => _type_matching (fst pair) (snd pair) = inr true) pre ->
  _type_matching callable_arg expected_arg = inr false ->
  validate H a (VFunction params ret) (Some (T_generic o expected_args))
  = Raise (CallableError a (params, ret) (T_generic o expected_args)
             callable_arg expected_arg) [].
Proof.
  intros Hm Hne Hzip Hpre Hpair.
  rewrite (validate_function H a params ret o (T_generic o expected_args) Hm)
    by reflexivity.
  simpl getattr_args.
  destruct expected_args as [|d ds]; [contradiction|].
  rewrite Hzip, for_each_first_failure.
  - simpl. now rewrite Hpair.
  - eapply Forall_impl; [|exact Hpre].
    intros [ca ea] Hok. simpl in *. now rewrite Hok.
  - simpl. rewrite Hpair. discriminate.
Qed.

Lemma callable_reports_first_mismatch_witness :
  validate spec_hierarchy
    (Samples.attr (T_generic (T_class c_Callable) [Samples.int; Samples.str]))
    (VFunction [Samples.int] Samples.int)
    (Some (T_generic (T_class c_Callable) [Samples.int; Samples.str]))
  = Raise (CallableError
             (Samples.attr
                (T_generic (T_class c_Callable) [Samples.int; Samples.str]))
             ([Samples.int], Samples.int)
             (T_generic (T_class c_Callable) [Samples.int; Samples.str])
             (Some Samples.int) (Some Samples.str)) [].
Proof.
  apply (callable_reports_first_mismatch spec_hierarchy
           (Samples.attr
              (T_generic (T_class c_Callable) [Samples.int; Samples.str]))
           (T_class c_Callable) [Samples.int] Samples.int
           [Samples.int; Samples.str]
           [(Some Samples.int, Some Samples.int)] []
           (Some Samples.int) (Some Samples.str)).
  - reflexivity.
  - discriminate.
  - reflexivity.
  - repeat constructor.
  - reflexivity.
Defined.

(* ================================================================== *)
(** ** The matcher on containers and unions *)

Lemma _type_matching_Some (actual : option ty) (expected : ty) :
  _type_matching actual (Some expected) = _type_matching_ty actual expected.
Proof. reflexivity. Qed.

Lemma container_base_not_union (o : ty) :
  member o similar_containers = true -> ty_eqb o T_Union = false.
Proof. destruct o; try discriminate; reflexivity. Qed.

(** X15.  With a plain class as the actual annotation and a subscripted
    container type as the expected one, the matcher does not answer
    [False]: reading [__args__] off the class raises [AttributeError], and
    so does the validation of a function with such a parameter, in place of
    a [CallableError]. *)
Theorem plain_actual_against_container_raises (c : cls) (o : ty)
  (args : list ty) :
  member o similar_containers = true ->
  _type_matching (Some (T_class c)) (Some (T_generic o args))
  = inl AttributeError
  /\ forall H a params ret ocall rest,
       member ocall SimilarTypes.Callable = true ->
       validate H a (VFunction (T_class c :: params) ret)
         (Some (T_generic ocall (T_generic o args :: rest)))
       = Raise AttributeError [].
Proof.
  intros Hm.
  assert (Hmatch : _type_matching (Some (T_class c)) (Some (T_generic o args))
                   = inl AttributeError).
  { rewrite _type_matching_Some, _type_matching_ty_eq.
    cbn [unwrap is_newtype is_typevar orb option_map opt_ty_eqb ty_eqb
         _get_base_type].
    now rewrite (container_base_not_union o Hm), Hm. }
  split; [exact Hmatch|].
  intros H a params ret ocall rest Hcall.
  rewrite (validate_function H a (T_class c :: params) ret ocall
             (T_generic ocall (T_generic o args :: rest)) Hcall)
    by reflexivity.
  cbn [getattr_args app zip_longest for_each check_pair].
  now rewrite Hmatch.
Qed.

Lemma plain_actual_against_container_raises_witness :
  validate spec_hierarchy
    (Samples.attr
       (T_generic (T_class c_Callable) [Samples.List_ Samples.int; Samples.str]))
    (VFunction [Samples.int] Samples.str)
    (Some (T_generic (T_class c_Callable)
             [Samples.List_ Samples.int; Samples.str]))
  = Raise AttributeError [].
Proof.
  apply (proj2 (plain_actual_against_container_raises c_int (T_class c_list)
                  [Samples.int] eq_refl)).
  reflexivity.
Defined.

Lemma any_matching_found (matching : ty -> exn + bool) (pre post : list ty)
  (t : ty) :
  Forall (fun c => matching c = inr false) pre ->
  matching t = inr true ->
  any_matching matching (pre ++ t :: post) = inr true.
Proof.
  induction 1 as [|c pre Hc _ IH]; intros Ht; simpl.
  - now rewrite Ht.
  - rewrite Hc. now apply IH.
Qed.

Lemma any_matching_none (matching : ty -> exn + bool) (alts : list ty) :
  Forall (fun c => matching c = inr false) alts ->
  any_matching matching alts = inr false.
Proof.
  induction 1 as [|c alts Hc _ IH]; simpl; [reflexivity|]. now rewrite Hc.
Qed.

(** X16.  Against a union, or a type variable with constraints, the matcher
    answers as [any] over the alternatives in their order: [True] once an
    alternative matches after alternatives that did not, and [False] when
    the actual annotation is not the expected one itself and no alternative
    matches. *)
Theorem matcher_scans_alternatives (actual : option ty) (u : ty)
  (alts : list ty) :
  (u = T_generic T_Union alts
   \/ exists n, u = T_TypeVar n None alts /\ alts <> []) ->
  (forall pre t post,
      alts = pre ++ t :: post ->
      Forall (fun c => _type_matching actual (Some c) = inr false) pre ->
      _type_matching actual (Some t) = inr true ->
      _type_matching actual (Some u) = inr true)
  /\ (opt_ty_eqb (Some (unwrap u)) (option_map unwrap actual) = false ->
      Forall (fun c => _type_matching actual (Some c) = inr false) alts ->
      _type_matching actual (Some u) = inr false).
Proof.
  intros Hu.
  assert (Hscan :
            _type_matching actual (Some u)
            = if opt_ty_eqb (Some (unwrap u)) (option_map unwrap actual)
              then inr true
              else any_matching (_type_matching_ty actual) alts).
  { rewrite _type_matching_Some, _type_matching_ty_eq.
    destruct Hu as [-> | (n & -> & Hne)].
    - cbn [unwrap is_newtype is_typevar orb _get_base_type].
      rewrite orb_false_r.
      destruct (opt_ty_eqb _ _); reflexivity.
    - destruct alts as [|c cs]; [contradiction|].
      cbn [unwrap is_newtype is_typevar orb _get_base_type List.length
           Nat.eqb negb].
      rewrite orb_false_r.
      destruct (opt_ty_eqb _ _); reflexivity. }
  split.
  - intros pre t post -> Hpre Ht. rewrite Hscan.
    destruct (opt_ty_eqb _ _); [reflexivity|].
    now apply any_matching_found.
  - intros Hfirst Hall. rewrite Hscan, Hfirst.
    now apply any_matching_none.
Qed.

Lemma matcher_scans_alternatives_witness :
  _type_matching (Some Samples.int)
    (Some (Samples.Union_ [Samples.str; Samples.int])) = inr true.
Proof.
  apply (proj1 (matcher_scans_alternatives (Some Samples.int)
                  (Samples.Union_ [Samples.str; Samples.int])
                  [Samples.str; Samples.int] (or_introl eq_refl))
           [Samples.str] Samples.int []).
  - reflexivity.
  - repeat constructor.
  - reflexivity.
Defined.

Lemma all_matching_pairwise (actuals expecteds : list ty) :
  Forall2 (fun a e => _type_matching_ty (Some a) e = inr true)
    actuals expecteds ->
  all_matching _type_matching_ty actuals expecteds = inr true.
Proof.
  induction 1 as [|a e actuals expecteds Hae _ IH]; simpl; [reflexivity|].
  now rewrite Hae.
Qed.

(** X17.  Two subscripted types are compatible as soon as the expected one
    is a container type and their arguments are compatible position by
    position: the origin of the actual one is not looked at, so that
    [Tuple[int]] is compatible with the expected [List[int]]. *)
Theorem matcher_ignores_actual_origin (oa oe : ty)
  (actuals expecteds : list ty) :
  member oe similar_containers = true ->
  Forall2 (fun a e => _type_matching (Some a) (Some e) = inr true)
    actuals expecteds ->
  _type_matching (Some (T_generic oa actuals)) (Some (T_generic oe expecteds))
  = inr true.
Proof.
  intros Hm Hpairs. rewrite _type_matching_Some, _type_matching_ty_eq.
  destruct (opt_ty_eqb _ _ || ty_eqb _ _); [reflexivity|].
  cbn [_get_base_type].
  rewrite (container_base_not_union oe Hm), Hm.
  now apply all_matching_pairwise.
Qed.

Lemma matcher_ignores_actual_origin_witness :
  _type_matching (Some (Samples.Tuple_ [Samples.int]))
    (Some (Samples.List_ Samples.int)) = inr true.
Proof.
  apply (matcher_ignores_actual_origin (T_class c_tuple) (T_class c_list)
           [Samples.int] [Samples.int]).
  - reflexivity.
  - repeat constructor.
Defined.

(* ================================================================== *)
(** ** Exceptions that are not recorded *)

(** X18.  An exception that is not a [BadTypeError], such as the signal of
    an unresolved string annotation or a [TypeError], leaves the sequence,
    mapping and tuple handlers as the member's validation raised it, with
    no container added; in particular a list with a first element against
    a sequence type whose element type is still a string raises the signal
    with nothing recorded. *)
Theorem other_exceptions_not_recorded (H : Hierarchy)
  (rec : Attribute -> value -> option ty -> outcome) (a : Attribute)
  (e : exn) (cs : list value) :
  is_BadTypeError H e = false ->
  (forall container t element_type pre x post,
      get_args t = inr [element_type] ->
      iter container = inr (pre ++ x :: post) ->
      Forall (fun y => rec a y (Some element_type) = Return) pre ->
      rec a x (Some element_type) = Raise e cs ->
      _handle_set_or_list H rec a container t = Raise e cs)
  /\ (forall container t key_type value_type pre k val post,
        get_args t = inr [key_type; value_type] ->
        iter_items container = inr (pre ++ (k, val) :: post) ->
        Forall (fun item => rec a (fst item) (Some key_type) = Return
                            /\ rec a (snd item) (Some value_type) = Return)
          pre ->
        (rec a k (Some key_type) = Raise e cs
         \/ rec a k (Some key_type) = Return
            /\ rec a val (Some value_type) = Raise e cs) ->
        _handle_dict H rec a container t = Raise e cs)
  /\ (forall es t tuple_types pre x expected_type post,
        get_args t = inr tuple_types ->
        List.length es
        = List.length (expand_tuple_types tuple_types (List.length es)) ->
        combine es (expand_tuple_types tuple_types (List.length es))
        = pre ++ (x, expected_type) :: post ->
        Forall (fun pair => rec a (fst pair) (Some (snd pair)) = Return)
          pre ->
        rec a x (Some expected_type) = Raise e cs ->
        _handle_tuple H rec a (VTuple es) t = Raise e cs).
Proof.
  intros He.
  assert (Hrec : forall c, recording H c (Raise e cs) = Raise e cs).
  { intros c. simpl. now rewrite He. }
  split; [|split].
  - intros container t et pre x post Hargs Hiter Hpre Hx.
    unfold _handle_set_or_list.
    rewrite Hargs, Hiter, for_each_first_failure.
    + now rewrite Hx.
    + eapply Forall_impl; [|exact Hpre]. intros y Hy. now rewrite Hy.
    + rewrite Hx, Hrec. discriminate.
  - intros container t kt vt pre k val post Hargs Hiter Hpre Hitem.
    unfold _handle_dict.
    assert (Hbody : recording H container
                      (seq (rec a k (Some kt))
                         (fun _ => rec a val (Some vt))) = Raise e cs).
    { destruct Hitem as [Hk|[Hk Hval]]; rewrite Hk; simpl seq;
        [|rewrite Hval]; apply Hrec. }
    rewrite Hargs, Hiter, for_each_first_failure.
    + exact Hbody.
    + eapply Forall_impl; [|exact Hpre].
      intros [k' v'] [Hk' Hv']. simpl in *. now rewrite Hk', Hv'.
    + rewrite Hbody. discriminate.
  - intros es t tts pre x et post Hargs Harity Hzip Hpre Hx.
    unfold _handle_tuple. rewrite Hargs. simpl len. simpl iter. cbv iota.
    rewrite <- Harity, Nat.eqb_refl. simpl negb. cbv iota.
    rewrite Hzip, for_each_first_failure.
    + now rewrite Hx.
    + eapply Forall_impl; [|exact Hpre].
      intros [y ty'] Hy. simpl in *. now rewrite Hy.
    + rewrite Hx, Hrec. discriminate.
Qed.

Lemma other_exceptions_not_recorded_witness :
  _handle_set_or_list spec_hierarchy (validate spec_hierarchy)
    (Samples.attr (Samples.List_ (T_str "Foo"))) (VList [VInt 1; VInt 2])
    (Samples.List_ (T_str "Foo"))
  = Raise _StringAnnotationError [].
Proof.
  apply (proj1 (other_exceptions_not_recorded spec_hierarchy
                  (validate spec_hierarchy)
                  (Samples.attr (Samples.List_ (T_str "Foo")))
                  _StringAnnotationError [] eq_refl)
           (VList [VInt 1; VInt 2]) (Samples.List_ (T_str "Foo"))
           (T_str "Foo") [] (VInt 1) [VInt 2]).
  - reflexivity.
  - reflexivity.
  - constructor.
  - reflexivity.
Defined.

(* ================================================================== *)
(** ** Resolution *)

Lemma resolve_field_name (hints : list (string * ty)) (field : Attribute) :
  name (resolve_field hints field) = name field.
Proof. unfold resolve_field. destruct (lookup hints (name field)); reflexivity. Qed.

Lemma resolve_field_idempotent (hints : list (string * ty))
  (field : Attribute) :
  resolve_field hints (resolve_field hints field) = resolve_field hints field.
Proof.
  unfold resolve_field.
  destruct (lookup hints (name field)) as [t|] eqn:Hl; simpl;
    now rewrite Hl.
Qed.

(** X19.  [resolve_types] keeps the fields of the class and their names,
    gives every field named in the hints the hinted type and leaves the
    others as they are; doing it again with the same hints changes nothing
    more. *)
Theorem resolve_types_idempotent (hints : list (string * ty)) (cls : Owner) :
  exists cls',
    resolve_types (inr hints) cls = inr cls'
    /\ resolve_types (inr hints) cls' = inr cls'
    /\ map name (owner_attribute cls' :: owner_others cls')
       = map name (owner_attribute cls :: owner_others cls)
    /\ Forall2
         (fun field field' =>
            match lookup hints (name field) with
            | Some t => type field' = Some t
            | None => field' = field
            end)
         (owner_attribute cls :: owner_others cls)
         (owner_attribute cls' :: owner_others cls').
Proof.
  eexists. split; [reflexivity|]. split; [|split].
  - unfold resolve_types. simpl. rewrite resolve_field_idempotent, map_map.
    f_equal. f_equal. apply map_ext. intros f. apply resolve_field_idempotent.
  - simpl. rewrite resolve_field_name, map_map. f_equal.
    apply map_ext. intros f. apply resolve_field_name.
  - simpl.
    assert (Hone : forall field,
               match lookup hints (name field) with
               | Some t => type (resolve_field hints field) = Some t
               | None => resolve_field hints field = field
               end).
    { intros field. unfold resolve_field.
      destruct (lookup hints (name field)); reflexivity. }
    constructor; [apply Hone|].
    induction (owner_others cls) as [|f fs IH]; simpl; constructor;
      [apply Hone | exact IH].
Qed.

(** X20.  When the validation of the field raises no signal of an
    unresolved annotation, and the emptiness check lets the value through,
    the entry point does nothing else: it gives the outcome of that one
    validation, [resolve_types] is not called and the attribute objects are
    left as they were. *)
Theorem no_signal_no_resolution (H : Hierarchy)
  (get_type_hints : exn + list (string * ty)) (empty_ok : bool)
  (instance : Owner) (field : value) :
  negb empty_ok && negb (truthy field) = false ->
  (forall cs,
      validate H (owner_attribute instance) field
        (type (owner_attribute instance))
      <> Raise _StringAnnotationError cs) ->
  type_validator H get_type_hints empty_ok instance field
  = (validate H (owner_attribute instance) field
       (type (owner_attribute instance)),
     instance, [Validated (type (owner_attribute instance))])
  /\ resolutions (snd (type_validator H get_type_hints empty_ok instance
                         field)) = 0.
Proof.
  intros Hcheck Hquiet.
  assert (Hrun : type_validator H get_type_hints empty_ok instance field
                 = (validate H (owner_attribute instance) field
                      (type (owner_attribute instance)),
                    instance, [Validated (type (owner_attribute instance))])).
  { unfold type_validator. rewrite Hcheck.
    destruct (validate H (owner_attribute instance) field
                (type (owner_attribute instance))) as [|e cs|] eqn:Hv;
      try reflexivity.
    destruct e; try reflexivity. now destruct (Hquiet cs). }
  split; [exact Hrun | now rewrite Hrun].
Qed.

Lemma no_signal_no_resolution_witness :
  type_validator spec_hierarchy (inl NameError) true Samples.list_owner
    (VList [VInt 1; VStr "x"])
  = (Raise (AttributeTypeError (VStr "x")
              (Samples.attr (Samples.List_ Samples.int)))
       [VList [VInt 1; VStr "x"]],
     Samples.list_owner, [Validated (Some (Samples.List_ Samples.int))]).
Proof.
  apply (no_signal_no_resolution spec_hierarchy (inl NameError) true
           Samples.list_owner (VList [VInt 1; VStr "x"])).
  - reflexivity.
  - discriminate.
Defined.

(** X21.  Once a validation has resolved the annotations of the class and
    its retry raised no signal, validating the same value again finds the
    resolved type in the attribute: it gives the same outcome with one
    validation and no further call of [resolve_types]. *)
Theorem later_validations_skip_resolution (H : Hierarchy)
  (hints : list (string * ty)) (empty_ok : bool) (instance : Owner)
  (field : value) (cs0 : list value) :
  negb empty_ok && negb (truthy field) = false ->
  validate H (owner_attribute instance) field
    (type (owner_attribute instance)) = Raise _StringAnnotationError cs0 ->
  forall outcome1 instance1 trace1,
    type_validator H (inr hints) empty_ok instance field
    = (outcome1, instance1, trace1) ->
    (forall cs, outcome1 <> Raise _StringAnnotationError cs) ->
    resolutions trace1 = 1
    /\ type_validator H (inr hints) empty_ok instance1 field
       = (outcome1, instance1,
          [Validated (type (owner_attribute instance1))]).
Proof.
  intros Hcheck Hfirst outcome1 instance1 trace1 Hrun Hquiet.
  unfold type_validator in Hrun. rewrite Hcheck, Hfirst in Hrun.
  cbn [resolve_types] in Hrun. inversion Hrun; subst. clear Hrun.
  split; [reflexivity|].
  unfold type_validator. rewrite Hcheck. cbn [owner_attribute].
  destruct (validate H (resolve_field hints (owner_attribute instance)) field
              (type (resolve_field hints (owner_attribute instance))))
    as [|e cs|] eqn:Hv; try reflexivity.
  destruct e; try reflexivity. now destruct (Hquiet cs).
Qed.

Lemma later_validations_skip_resolution_witness :
  type_validator spec_hierarchy (inr [("zoo", Samples.int)]) true
    {| owner_attribute := {| name := "zoo"; type := Some Samples.int |};
       owner_others := [] |} (VInt 3)
  = (Return,
     {| owner_attribute := {| name := "zoo"; type := Some Samples.int |};
        owner_others := [] |},
     [Validated (Some Samples.int)]).
Proof.
  apply (later_validations_skip_resolution spec_hierarchy
           [("zoo", Samples.int)] true Samples.pending_owner (VInt 3) []
           eq_refl eq_refl Return
           {| owner_attribute := {| name := "zoo"; type := Some Samples.int |};
              owner_others := [] |}
           [Validated (Some (T_str "Foo")); Resolved;
            Validated (Some Samples.int)] eq_refl).
  discriminate.
Defined.

(* ================================================================== *)
(** ** Wrappers of a class *)



(* ================================================================== *)
(** ** The dispatch table *)

(** X23.  No base type belongs to two of the sets of [SimilarTypes], and
    none of them holds [typing.Union] or [typing.Any]: the order of the
    branches of the dispatch in [_validate_elements] decides nothing. *)
Theorem similar_types_disjoint (base_type : ty) :
  let l := member base_type SimilarTypes.List in
  let d := member base_type SimilarTypes.Dict in
  let t := member base_type SimilarTypes.Tuple in
  let c := member base_type SimilarTypes.Callable in
  (l = true -> d = false /\ t = false /\ c = false)
  /\ (d = true -> t = false /\ c = false)
  /\ (t = true -> c = false)
  /\ (l || d || t || c = true ->
      ty_eqb base_type T_Union = false /\ ty_eqb base_type T_Any = false).
Proof.
  destruct base_type as [| | |c|al| | | | |]; simpl;
    try (repeat split; discriminate);
    [destruct c | destruct al]; simpl; repeat split; auto; discriminate.
Qed.
